(** * Jacobian analysis of a contractive auto-encoder (test_CAE.py)

    A shallow embedding of the analysis part of [src/test_CAE.py]:
    [find_jacobian], the selection of latent directions from the result of
    [torch.svd], and the loop that fills the 5 x 11 figure of decoded
    images.  The networks of [src/model/autoencoder.py] are stacks of
    library layers; they enter the development through the record [arch]
    (their forward function and the derivative tables the automatic
    differentiation engine computes for it) and the record [mstate] (what a
    module owns at run time: parameters, their gradient buffers, the
    training flag and the BatchNorm buffers).

    Tensors of floating point numbers are read as tensors over an ordered
    field; rounding is not modelled. *)

From HB Require Import structures.
From mathcomp Require Import boot order algebra.
From Stdlib Require String.
Import String.StringSyntax.

Set Implicit Arguments.
Unset Strict Implicit.
Unset Printing Implicit Defensive.

Import GRing.Theory Num.Theory.
Local Open Scope ring_scope.
Delimit Scope string_scope with string.

(** ** Tensors, modules and the automatic differentiation engine *)

Section Autograd.

Variable F : realFieldType.

(** A two dimensional leaf tensor: a batch of [B] rows of [I] numbers, the
    [requires_grad] flag and the [grad] buffer ([None] until the first
    backward pass reaches the tensor). An image batch of shape (N, C, H, W)
    is stored with its pixels in row-major order, see [pixel]. *)
Record tensor (B I : nat) := Tensor {
  data : 'M[F]_(B, I);
  requires_grad : bool;
  grad : option 'M[F]_(B, I)
}.

(** What an [nn.Module] owns: parameters, the gradient buffer of the
    parameters, the [training] flag ([True] when a module is built, cleared
    only by [eval()]), and the buffers of its BatchNorm layers. *)
Record mstate (Kw Kb : nat) := MState {
  weights : 'rV[F]_Kw;
  wgrad : option 'rV[F]_Kw;
  training : bool;
  running : 'rV[F]_Kb;
  num_batches_tracked : nat
}.

(** The numeric content of a network. [fwd_fn] is the value of the forward
    pass on a batch of any size; [jac_fn s x m d] is the gradient of output
    entry [m, d] with respect to the whole input batch and [wjac_fn s x m d]
    its gradient with respect to the parameters, as the engine derives them
    from the recorded graph; [stats_fn] is the new value of the running
    statistics after a forward pass in training mode. *)
Record arch (I O Kw Kb : nat) := Arch {
  fwd_fn : forall B, mstate Kw Kb -> 'M[F]_(B, I) -> 'M[F]_(B, O);
  jac_fn : forall B, mstate Kw Kb -> 'M[F]_(B, I) -> 'I_B -> 'I_O -> 'M[F]_(B, I);
  wjac_fn : forall B, mstate Kw Kb -> 'M[F]_(B, I) -> 'I_B -> 'I_O -> 'rV[F]_Kw;
  stats_fn : forall B, mstate Kw Kb -> 'M[F]_(B, I) -> 'rV[F]_Kb
}.

Section Engine.

Variables (I O Kw Kb : nat) (a : arch I O Kw Kb).

(** [ConvEncoder.forward] / [ConvDecoder.forward]: the value of the layer
    stack; the BatchNorm layers of the stack update their buffers in place
    when the module is in training mode. *)
Definition forward B (s : mstate Kw Kb) (inp : 'M[F]_(B, I)) :
    'M[F]_(B, O) * mstate Kw Kb :=
  (fwd_fn a s inp,
   if training s
   then MState (weights s) (wgrad s) true (stats_fn a s inp)
               (num_batches_tracked s).+1
   else s).

(** The graph hanging off the output of one forward pass: the module as it
    was when the pass ran, the input values, and whether the input was a
    leaf requiring a gradient. *)
Record graph (B : nat) := Graph {
  g_mod : mstate Kw Kb;
  g_in : 'M[F]_(B, I);
  g_leaf : bool
}.

Definition record_graph B (s : mstate Kw Kb) (x : tensor B I) : graph B :=
  Graph s (data x) (requires_grad x).

(** Vector-Jacobian products of the recorded graph for a seed of the shape
    of the output. *)
Definition vjp B (g : graph B) (seed : 'M[F]_(B, O)) : 'M[F]_(B, I) :=
  \sum_m \sum_d seed m d *: jac_fn a (g_mod g) (g_in g) m d.

Definition wvjp B (g : graph B) (seed : 'M[F]_(B, O)) : 'rV[F]_Kw :=
  \sum_m \sum_d seed m d *: wjac_fn a (g_mod g) (g_in g) m d.

(** Gradients are accumulated into the buffer of a leaf, never assigned. *)
Definition accumulate (V : zmodType) (buf : option V) (g : V) : option V :=
  Some (if buf is Some b then b + g else g).

(** [z.backward(seed, retain_graph=True)]: every leaf of the graph that
    requires a gradient receives its vector-Jacobian product. *)
Definition backward B (g : graph B) (seed : 'M[F]_(B, O))
    (x : tensor B I) (s : mstate Kw Kb) : tensor B I * mstate Kw Kb :=
  (if g_leaf g
   then Tensor (data x) (requires_grad x) (accumulate (grad x) (vjp g seed))
   else x,
   MState (weights s) (accumulate (wgrad s) (wvjp g seed)) (training s)
          (running s) (num_batches_tracked s)).

End Engine.

(** [x.requires_grad_(True)]. [x.retain_grad()] changes nothing on a leaf. *)
Definition requires_grad_ B I (x : tensor B I) : tensor B I :=
  Tensor (data x) true (grad x).

(** [x.grad.data.zero_()]; fails when there is no buffer. *)
Definition zero_grad B I (x : tensor B I) : option (tensor B I) :=
  if grad x is Some _ then Some (Tensor (data x) (requires_grad x) (Some 0))
  else None.

(** What a backward pass finds in the buffer of [x]: its content, or
    nothing to add to. *)
Definition pending B I (x : tensor B I) : 'M[F]_(B, I) :=
  if grad x is Some b then b else 0.

(** A tensor that carries no gradient from earlier backward passes. *)
Definition clean_grad B I (x : tensor B I) : bool :=
  if grad x is Some b then b == 0 else true.

(** A batch as the data loader hands it over
    ([x, _, __ = next(iter(train_loader))], sliced and moved to the device):
    no gradient required, no buffer. *)
Definition loader_batch B I (xd : 'M[F]_(B, I)) : tensor B I :=
  Tensor xd false None.

(** A module as its constructor leaves it: training mode, no parameter
    gradients, no batch seen. *)
Definition fresh_module Kw Kb (w : 'rV[F]_Kw) (r : 'rV[F]_Kb) : mstate Kw Kb :=
  MState w None true r 0.

(** A network without hidden layers, [x |-> x A]; its derivative tables are
    the entries of [A]. *)
Definition linear_arch I O (A : 'M[F]_(I, O)) : arch I O 0 0 :=
  Arch (fun B _ x => x *m A)
       (fun B _ _ m d => \matrix_(n, i) ((n == m)%:R * A i d))
       (fun B _ _ _ _ => 0)
       (fun B s _ => running s).

(** A network with one parameter [w], [x |-> w (x A)]: the derivative of an
    output entry with respect to [w] is the matching entry of [x A]. *)
Definition scaled_arch I O (A : 'M[F]_(I, O)) : arch I O 1 0 :=
  Arch (fun B s x => weights s 0 0 *: (x *m A))
       (fun B s _ m d => \matrix_(n, i) ((n == m)%:R * (weights s 0 0 * A i d)))
       (fun B _ x m d => \row_(_ < 1) (x *m A) m d)
       (fun B s _ => running s).

(** A normalisation layer with its buffer, as BatchNorm has it but without
    the division by the standard deviation: in training mode every entry
    loses the mean of its column over the batch and the running mean moves
    a tenth of the way towards it; in [eval()] mode every entry loses the
    running mean. *)
Definition meannorm_arch Z : arch Z Z 0 Z :=
  Arch (fun B s x =>
          \matrix_(k, j) (x k j - (if training s then (\sum_i x i j) / B%:R
                                   else running s 0 j)))
       (fun B s _ m d =>
          \matrix_(n, i) ((i == d)%:R *
                          ((n == m)%:R - (if training s then B%:R^-1 else 0))))
       (fun B _ _ _ _ => 0)
       (fun B s x =>
          \row_j ((1 - 10%:R^-1) * running s 0 j +
                  10%:R^-1 * ((\sum_i x i j) / B%:R))).

End Autograd.

(** ** find_jacobian *)

(** What the run leaves in its log: one entry per forward pass of the
    encoder, per forward pass of the decoder and per backward pass (with
    the latent dimension its seed selects). *)
Inductive event := EvEncode | EvDecode | EvBackward of nat.

Section FindJacobian.

Variable F : realFieldType.

(** Batch size, image shape and latent dimension ([latent_dim], which is
    also [z.shape[1]]); sizes of the parameter and buffer vectors of the
    two networks. *)
Variables (N C H W Z : nat).
Variables (Kwe Kbe Kwd Kbd : nat).

(** Number of pixels of one image, and the row-major position of pixel
    (c, h, w) among them, which is the row that [reshape(-1, latent_dim)]
    gives to it. *)
Definition P : nat := (C * H * W)%N.

Definition pixel (c : 'I_C) (h : 'I_H) (w : 'I_W) : 'I_P :=
  mxvec_index (mxvec_index c h) w.

Variable encoder : arch F P Z Kwe Kbe.
Variable decoder : arch F Z P Kwd Kbd.

(** The tensor of shape (N, C, H, W, Z): for each sample the matrix that
    [jacobian[n].reshape(-1, latent_dim)] denotes. *)
Definition jacobian_t : Type := {ffun 'I_N -> 'M[F]_(P, Z)}.

Definition zeros : jacobian_t := [ffun _ => 0].

(** [jacobian[:, :, :, :, d] = g] *)
Definition set_column (J : jacobian_t) (d : 'I_Z) (g : 'M[F]_(N, P)) :
    jacobian_t :=
  [ffun n => \matrix_(p, e) if e == d then g n p else J n p e].

(** [one_code = torch.zeros(z.size()); one_code[:, d] = 1] *)
Definition one_code (d : 'I_Z) : 'M[F]_(N, Z) := \matrix_(m, e) (e == d)%:R.

(** Everything the program can observe: the input tensor [x], the two
    modules [encoder] and [decoder], and the log. *)
Record world := World {
  w_x : tensor F N P;
  w_enc : mstate F Kwe Kbe;
  w_dec : mstate F Kwd Kbd;
  w_log : seq event
}.

(** The state threaded through the loop over latent dimensions. *)
Record loop_state := LoopState {
  ls_jac : jacobian_t;
  ls_world : world
}.

(** One pass of the body of [for d in range(latent_dim)], for the latent
    batch [z] and its graph [g]. The decoded batch [x_hat] is dropped. *)
Definition jac_step (z : 'M[F]_(N, Z)) (g : graph F P Kwe Kbe N) (d : 'I_Z)
    (st : loop_state) : option loop_state :=
  let w := ls_world st in
  let: (x_hat, dec1) := forward decoder (w_dec w) z in
  let: (x1, enc1) := backward encoder g (one_code d) (w_x w) (w_enc w) in
  if grad x1 is Some gx then
    if zero_grad x1 is Some x2 then
      Some (LoopState (set_column (ls_jac st) d gx)
              (World x2 enc1 dec1
                 (w_log w ++ [:: EvDecode; EvBackward d])))
    else None
  else None.

Fixpoint jac_loop (z : 'M[F]_(N, Z)) (g : graph F P Kwe Kbe N)
    (ds : seq 'I_Z) (st : loop_state) : option loop_state :=
  if ds is d :: ds' then
    if jac_step z g d st is Some st' then jac_loop z g ds' st' else None
  else Some st.

(** [find_jacobian(encoder, x)]; [decoder] and [latent_dim] are globals of
    the script. *)
Definition find_jacobian (w : world) : option (jacobian_t * world) :=
  let x1 := requires_grad_ (w_x w) in
  let: (z, enc1) := forward encoder (w_enc w) (data x1) in
  let g := record_graph (w_enc w) x1 in
  let st0 := LoopState zeros (World x1 enc1 (w_dec w) (rcons (w_log w) EvEncode)) in
  if jac_loop z g (enum 'I_Z) st0 is Some st
  then Some (ls_jac st, ls_world st) else None.

(** The variant the specification allows: the same function with the
    [decoder(z)] call of the loop body left out. *)
Definition jac_step_no_decode (g : graph F P Kwe Kbe N) (d : 'I_Z)
    (st : loop_state) : option loop_state :=
  let w := ls_world st in
  let: (x1, enc1) := backward encoder g (one_code d) (w_x w) (w_enc w) in
  if grad x1 is Some gx then
    if zero_grad x1 is Some x2 then
      Some (LoopState (set_column (ls_jac st) d gx)
              (World x2 enc1 (w_dec w) (w_log w ++ [:: EvBackward d])))
    else None
  else None.

Fixpoint jac_loop_no_decode (g : graph F P Kwe Kbe N)
    (ds : seq 'I_Z) (st : loop_state) : option loop_state :=
  if ds is d :: ds' then
    if jac_step_no_decode g d st is Some st'
    then jac_loop_no_decode g ds' st' else None
  else Some st.

Definition find_jacobian_no_decode (w : world) : option (jacobian_t * world) :=
  let x1 := requires_grad_ (w_x w) in
  let: (z, enc1) := forward encoder (w_enc w) (data x1) in
  let g := record_graph (w_enc w) x1 in
  let st0 := LoopState zeros (World x1 enc1 (w_dec w) (rcons (w_log w) EvEncode)) in
  if jac_loop_no_decode g (enum 'I_Z) st0 is Some st
  then Some (ls_jac st, ls_world st) else None.

(** The graph of the single forward pass of [find_jacobian] and the state
    in which its loop starts. *)
Definition base_graph (w : world) : graph F P Kwe Kbe N :=
  record_graph (w_enc w) (requires_grad_ (w_x w)).

Definition loop_start (w : world) : loop_state :=
  LoopState zeros
    (World (requires_grad_ (w_x w))
           (forward encoder (w_enc w) (data (w_x w))).2
           (w_dec w) (rcons (w_log w) EvEncode)).

(** The part of the loop state that the decoder cannot reach. *)
Definition core (st : loop_state) :=
  (ls_jac st, w_x (ls_world st), w_enc (ls_world st)).

End FindJacobian.

Definition is_encode (e : event) : bool :=
  if e is EvEncode then true else false.

(** ** Directions from the singular value decomposition *)

Section Directions.

Variable F : realFieldType.
Variables (P Z : nat).

(** The contract of [torch.svd(A)] for a P x Z matrix with Z <= P
    ([some=True]): it returns (U, S, V) with A = U diag(S) V^T, the columns
    of U and of V orthonormal, and S non-negative in non-increasing order.
    The third component is V itself, not its transpose. *)
Definition is_svd (A U : 'M[F]_(P, Z)) (S : 'rV[F]_Z) (V : 'M[F]_(Z, Z)) : bool :=
  [&& A == U *m diag_mx S *m V^T,
      U^T *m U == 1%:M,
      V^T *m V == 1%:M,
      [forall i, 0 <= S 0 i] &
      [forall i : 'I_Z, [forall j : 'I_Z, (i <= j)%N ==> (S 0 j <= S 0 i)]]].

(** [direction = v.T[:, d]], kept as a row so that it can be broadcast
    against the rows of a latent batch. *)
Definition direction (v : 'M[F]_(Z, Z)) (d : 'I_Z) : 'rV[F]_Z := (col d v^T)^T.

(** Inner product of two latent vectors. *)
Definition dot (u v : 'rV[F]_Z) : F := \sum_j u 0 j * v 0 j.

End Directions.

(** ** The figure *)

(** [t.squeeze()] drops the axes of length 1. *)
Definition squeeze (sh : seq nat) : seq nat := [seq n <- sh | n != 1%N].

(** The arrays [imshow] takes as an image: (M, N), (M, N, 3) and
    (M, N, 4); for any other shape it raises a [TypeError]. *)
Definition image_shape (sh : seq nat) : bool :=
  match sh with
  | [:: _; _] => true
  | [:: _; _; k] => (k == 3%N) || (k == 4%N)
  | _ => false
  end.

(** Whether [imshow] takes [img.permute(1, 2, 0).squeeze()] for an image
    [img] of shape (C, H, W). *)
Definition imshow_accepts (C H W : nat) : bool :=
  image_shape (squeeze [:: H; W; C]).

(** An image of shape (C, H, W) that has pixels and that [imshow] takes. *)
Definition displayable (C H W : nat) : bool :=
  (0 < C * H * W)%N && imshow_accepts C H W.

Section Render.

Variable F : realFieldType.
Variables (C H W Z Kwd Kbd : nat).
Variable decoder : arch F Z (P C H W) Kwd Kbd.

(** [torch.linspace(start, stop, steps)]: a single step is [start]; else
    the library fills the first half from [start] upwards and the second
    half from [stop] downwards. *)
Definition linspace (start stop : F) (steps : nat) : 'rV[F]_steps :=
  let step := (stop - start) / (steps - 1)%:R in
  \row_(i < steps)
    if steps == 1%N then start
    else if (i < steps./2)%N then start + i%:R * step
    else stop - (steps - 1 - i)%:R * step.

(** The grid of axes of [plt.subplots(nrows, ncols)]; a cell holds the image
    last shown in it. *)
Record figure := Figure {
  nrows : nat;
  ncols : nat;
  cells : nat -> nat -> option 'rV[F]_(P C H W)
}.

Definition subplots (nr nc : nat) : figure := Figure nr nc (fun _ _ => None).

(** [ax[r, c].imshow(img.permute(1, 2, 0).squeeze().numpy())] for an image
    of shape (C, H, W): indexing outside the grid raises, and so does
    [imshow] when the squeezed array does not have the shape of an image. *)
Definition imshow (fig : figure) (r c : nat) (img : 'rV[F]_(P C H W)) :
    option figure :=
  if [&& (r < nrows fig)%N, (c < ncols fig)%N & imshow_accepts C H W]
  then Some (Figure (nrows fig) (ncols fig)
               (fun r' c' => if (r' == r) && (c' == c) then Some img
                             else cells fig r' c'))
  else None.

(** [for k in range(len(x_hat)): ax[r, off + k].imshow(x_hat[k])] *)
Fixpoint show_loop B (x_hat : 'M[F]_(B, P C H W)) (r off : nat) (ks : seq 'I_B)
    (fig : figure) : option figure :=
  if ks is k :: ks' then
    if imshow fig r (off + k) (row k x_hat) is Some fig'
    then show_loop x_hat r off ks' fig' else None
  else Some fig.

(** [z[None, :] + coeff[:, None] * direction] *)
Definition latents B (z : 'rV[F]_Z) (coeff : 'rV[F]_B) (dir : 'rV[F]_Z) :
    'M[F]_(B, Z) :=
  \matrix_(k, j) (z 0 j + coeff 0 k * dir 0 j).

(** The body of [for d in range(num_directions)] for the sample image [xn],
    its latent code [z] and the matrix [v] returned by [torch.svd]. *)
Definition render_row (coeff_range : F) (xn : 'rV[F]_(P C H W)) (z : 'rV[F]_Z)
    (v : 'M[F]_(Z, Z)) (d : nat) (st : figure * mstate F Kwd Kbd) :
    option (figure * mstate F Kwd Kbd) :=
  let: (fig, dec) := st in
  if imshow fig d 5 xn is Some fig1 then
    if insub d is Some dz then
      let dir := direction v dz in
      let coeff := linspace 0 coeff_range 5 in
      let: (x_hat, dec1) := forward decoder dec (latents z coeff dir) in
      if show_loop x_hat d 6 (enum 'I_5) fig1 is Some fig2 then
        let coeff := linspace (- coeff_range) 0 5 in
        let: (x_hat, dec2) := forward decoder dec1 (latents z coeff dir) in
        if show_loop x_hat d 0 (enum 'I_5) fig2 is Some fig3
        then Some (fig3, dec2) else None
      else None
    else None
  else None.

Fixpoint render_rows (coeff_range : F) (xn : 'rV[F]_(P C H W)) (z : 'rV[F]_Z)
    (v : 'M[F]_(Z, Z)) (ds : seq nat) (st : figure * mstate F Kwd Kbd) :
    option (figure * mstate F Kwd Kbd) :=
  if ds is d :: ds' then
    if render_row coeff_range xn z v d st is Some st'
    then render_rows coeff_range xn z v ds' st' else None
  else Some st.

(** One sample of [for n in range(num_samples)] once [v] and [z] are known:
    [fig, ax = plt.subplots(nrows=5, ncols=11)] and the loop over
    directions. *)
Definition render_sample (num_directions : nat) (coeff_range : F)
    (xn : 'rV[F]_(P C H W)) (z : 'rV[F]_Z) (v : 'M[F]_(Z, Z))
    (dec : mstate F Kwd Kbd) : option (figure * mstate F Kwd Kbd) :=
  render_rows coeff_range xn z v (iota 0 num_directions) (subplots 5 11, dec).

(** The two latent batches decoded for direction [dz], and the decoder as
    the two forward passes of a row leave it. *)
Definition pos_batch (cr : F) (z : 'rV[F]_Z) (v : 'M[F]_(Z, Z)) (dz : 'I_Z) :
    'M[F]_(5, Z) :=
  latents z (linspace 0 cr 5) (direction v dz).

Definition neg_batch (cr : F) (z : 'rV[F]_Z) (v : 'M[F]_(Z, Z)) (dz : 'I_Z) :
    'M[F]_(5, Z) :=
  latents z (linspace (- cr) 0 5) (direction v dz).

Definition dec_after_pos (dec : mstate F Kwd Kbd) cr z v dz :=
  (forward decoder dec (pos_batch cr z v dz)).2.

Definition dec_after_row (dec : mstate F Kwd Kbd) cr z v dz :=
  (forward decoder (dec_after_pos dec cr z v dz) (neg_batch cr z v dz)).2.

(** The decoder as it is when the loop reaches row [d]. *)
Fixpoint dec_before (dec : mstate F Kwd Kbd) cr z v (d : nat) :
    mstate F Kwd Kbd :=
  if d is d'.+1 then
    let s := dec_before dec cr z v d' in
    if insub d' is Some dz then dec_after_row s cr z v dz else s
  else dec.

(** Row [dz] of a finished figure, when the decoder was [s] on entering the
    row: the input image in column 5, the decoded negative batch in columns
    0 to 4 and the decoded positive batch in columns 6 to 10. *)
Definition row_filled (fig : figure) cr xn z v (s : mstate F Kwd Kbd)
    (dz : 'I_Z) : Prop :=
  cells fig dz 5 = Some xn /\
  forall k : 'I_5,
    cells fig dz k =
      Some (row k (fwd_fn decoder (dec_after_pos s cr z v dz)
                     (neg_batch cr z v dz))) /\
    cells fig dz (6 + k) =
      Some (row k (fwd_fn decoder s (pos_batch cr z v dz))).


End Render.

(** The constants of the script. *)
Definition num_samples : nat := 10.
Definition num_directions : nat := 5.
Definition coeff_range (F : realFieldType) : F := 10%:R.

(** ** Concrete networks and matrices *)

(** A matrix written out by rows. *)
Definition mx_of (F : realFieldType) m n (rows : seq (seq F)) : 'M[F]_(m, n) :=
  \matrix_(i, j) nth 0 (nth [::] rows i) j.

(** One pixel, one latent dimension: the encoder doubles, the decoder
    triples. *)
Definition enc1 : arch rat (P 1 1 1) 1 0 0 := linear_arch (const_mx 2).
Definition dec1 : arch rat 1 (P 1 1 1) 0 0 := linear_arch (const_mx 3).
Definition world1 : world rat 1 1 1 1 0 0 0 0 :=
  World (loader_batch (const_mx 1)) (fresh_module 0 0) (fresh_module 0 0) [::].

(** A Jacobian with three pixels and three latent dimensions and its
    decomposition: singular values 3, 2, 1 with right singular vectors
    e3, e1, e2 (the columns of [V3]). *)
Definition A3 : 'M[rat]_(3, 3) :=
  mx_of 3 3 [:: [:: 0; 0; 3]; [:: 2; 0; 0]; [:: 0; 1; 0]].
Definition U3 : 'M[rat]_(3, 3) :=
  mx_of 3 3 [:: [:: 1; 0; 0]; [:: 0; 1; 0]; [:: 0; 0; 1]].
Definition S3 : 'rV[rat]_3 := mx_of 1 3 [:: [:: 3; 2; 1]].
Definition V3 : 'M[rat]_(3, 3) :=
  mx_of 3 3 [:: [:: 0; 1; 0]; [:: 0; 0; 1]; [:: 1; 0; 0]].

(** Two images of one channel and 2 x 2 pixels, two latent dimensions: an
    encoder with one parameter (of value 3) and a decoder without hidden
    layers, both as their constructors leave them. *)
Definition enc4 : arch rat (P 1 2 2) 2 1 0 :=
  scaled_arch (mx_of 4 2 [:: [:: 1; 0]; [:: 0; 1]; [:: 1; 1]; [:: 2; 0]]).
Definition dec4 : arch rat 2 (P 1 2 2) 0 0 :=
  linear_arch (mx_of 2 4 [:: [:: 1; 0; 1; 0]; [:: 0; 1; 0; 1]]).
Definition world4 : world rat 2 1 2 2 1 0 0 0 :=
  World (loader_batch
           (mx_of 2 4 [:: [:: 1; 2; 3; 4]; [:: 0; 1; 0; 1]] : 'M_(2, P 1 2 2)))
        (fresh_module (const_mx 3) 0) (fresh_module 0 0) [::].

(** Six latent dimensions decoded to images of one channel and 2 x 3
    pixels by the normalisation layer; the module in training mode, as its
    constructor leaves it, and in [eval()] mode after three batches. *)
Definition dec6 : arch rat 6 (P 1 2 3) 0 6 := meannorm_arch rat 6.
Definition mod6 : mstate rat 0 6 := fresh_module 0 0.

Ltac ord3 i := case: i => [[|[|[|?]]] ?] //.

(** ** Further definitions *)

Section MoreAutograd.

Variable F : realFieldType.

(** What a backward pass finds in the gradient buffer of the parameters. *)
Definition wpending Kw Kb (s : mstate F Kw Kb) : 'rV[F]_Kw :=
  if wgrad s is Some b then b else 0.

End MoreAutograd.

(** ** The loop over samples *)

Section Script.

Variable F : realFieldType.
Variables (N C H W Z Kwe Kbe Kwd Kbd : nat).
Variable encoder : arch F (P C H W) Z Kwe Kbe.
Variable decoder : arch F Z (P C H W) Kwd Kbd.

(** [torch.svd] as the script uses it: a matrix goes in, (U, S, V) comes
    out. *)
Variable torch_svd :
  'M[F]_(P C H W, Z) -> 'M[F]_(P C H W, Z) * 'rV[F]_Z * 'M[F]_(Z, Z).

(** The body of [for n in range(num_samples)]: the decomposition of the
    Jacobian of sample [n], a fresh forward pass of the encoder on the whole
    batch whose row [n] is the latent code, and the figure, which is saved.
    The log gains the encoder pass and the two decoder passes of each
    direction. *)
Definition script_sample (nd : nat) (cr : F)
    (J : jacobian_t F N C H W Z) (n : 'I_N)
    (w : world F N C H W Kwe Kbe Kwd Kbd) :
    option (figure F C H W * world F N C H W Kwe Kbe Kwd Kbd) :=
  let: (u, s, v) := torch_svd (J n) in
  let: (zb, enc1) := forward encoder (w_enc w) (data (w_x w)) in
  let z := row n zb in
  if render_sample decoder nd cr (row n (data (w_x w))) z v (w_dec w)
    is Some (fig, dec1)
  then Some (fig, World (w_x w) enc1 dec1
                    (w_log w ++ EvEncode :: nseq (2 * nd) EvDecode))
  else None.

Fixpoint script_loop (nd : nat) (cr : F) (J : jacobian_t F N C H W Z)
    (ns : seq 'I_N) (w : world F N C H W Kwe Kbe Kwd Kbd) :
    option (seq (figure F C H W) * world F N C H W Kwe Kbe Kwd Kbd) :=
  if ns is n :: ns' then
    if script_sample nd cr J n w is Some (fig, w1) then
      if script_loop nd cr J ns' w1 is Some (figs, w2)
      then Some (fig :: figs, w2) else None
    else None
  else Some ([::], w).

(** [jacobian = find_jacobian(encoder, x)] followed by the loop over the
    samples; the result is the list of saved figures. *)
Definition script (nd : nat) (cr : F) (w : world F N C H W Kwe Kbe Kwd Kbd) :
    option (seq (figure F C H W) * world F N C H W Kwe Kbe Kwd Kbd) :=
  if find_jacobian encoder decoder w is Some (J, w1)
  then script_loop nd cr J (enum 'I_N) w1 else None.

End Script.

(** ** The layer stacks of autoencoder.py, at the level of tensor shapes *)

(** The layers used in [model/autoencoder.py]. [Conv2d] and
    [ConvTranspose2d] carry input channels, output channels, kernel size,
    stride and padding (square kernels, no dilation, no output padding);
    [ZeroPad2d] carries left, right, top and bottom; in the size of a
    [View], [None] stands for -1. *)
Section Shapes.

Local Open Scope nat_scope.

Inductive layer :=
  | Conv2d of nat & nat & nat & nat & nat
  | ConvTranspose2d of nat & nat & nat & nat & nat
  | BatchNorm2d of nat
  | ReLU
  | Sigmoid
  | Dropout
  | ZeroPad2d of nat & nat & nat & nat
  | Linear of nat & nat
  | View of seq (option nat).

Definition shape := seq nat.

Definition numel (sh : shape) : nat := foldr muln 1%N sh.

(** Output length of a convolution along one axis; the kernel must fit
    into the padded input. *)
Definition conv_dim (h k s p : nat) : option nat :=
  if (k <= h + 2 * p)%N then Some ((h + 2 * p - k) %/ s).+1 else None.

(** Output length of a transposed convolution along one axis. *)
Definition convT_dim (h k s p : nat) : option nat :=
  if (0 < h)%N && (2 * p < (h - 1) * s + k)%N
  then Some ((h - 1) * s + k - 2 * p)%N else None.

(** [tensor.view(size)]: without -1 the sizes must multiply to the number
    of elements; one -1 is inferred when the other sizes divide it. *)
Definition view (size : seq (option nat)) (sh : shape) : option shape :=
  let known := numel (pmap id size) in
  match count (fun o : option nat => ~~ o) size with
  | 0 => if known == numel sh then Some (pmap id size) else None
  | 1 => if (known != 0)%N && (known %| numel sh)%N
         then Some [seq odflt (numel sh %/ known)%N o | o <- size]
         else None
  | _ => None
  end.

(** A convolution acts on the last two axes of a batched (4-D) or a single
    (3-D) image whose channel axis has the expected length. A layer built
    with no input channels or no output channels raises in its forward
    pass. *)
Definition conv_shape (dim : nat -> option nat) (cin cout : nat) (sh : shape) :
    option shape :=
  if (0 < cin) && (0 < cout) then
    match sh with
    | [:: b; c; h; w] =>
        if c == cin then
          if dim h is Some h' then
            if dim w is Some w' then Some [:: b; cout; h'; w'] else None
          else None
        else None
    | [:: c; h; w] =>
        if c == cin then
          if dim h is Some h' then
            if dim w is Some w' then Some [:: cout; h'; w'] else None
          else None
        else None
    | _ => None
    end
  else None.

(** The shape of the output of one layer, when it accepts its input.
    A BatchNorm layer wants a 4-D input and, in training mode, refuses a
    batch with a single value per channel; a linear layer acts on the last
    axis. *)
Definition apply_layer (training : bool) (l : layer) (sh : shape) :
    option shape :=
  match l with
  | Conv2d cin cout k s p => conv_shape (fun h => conv_dim h k s p) cin cout sh
  | ConvTranspose2d cin cout k s p =>
      conv_shape (fun h => convT_dim h k s p) cin cout sh
  | BatchNorm2d n =>
      if sh is [:: b; c; h; w] then
        if (c == n) && ~~ (training && (b * (h * w) == 1)%N)
        then Some sh else None
      else None
  | ReLU | Sigmoid | Dropout => Some sh
  | ZeroPad2d l r t bt =>
      match sh with
      | [:: b; c; h; w] => Some [:: b; c; (h + t + bt)%N; (w + l + r)%N]
      | [:: c; h; w] => Some [:: c; (h + t + bt)%N; (w + l + r)%N]
      | _ => None
      end
  | Linear fin fout =>
      if rev sh is k :: r then
        if k == fin then Some (rev (fout :: r)) else None
      else None
  | View size => view size sh
  end.

(** [nn.Sequential] *)
Fixpoint run_seq (training : bool) (ls : seq layer) (sh : shape) :
    option shape :=
  if ls is l :: ls' then
    if apply_layer training l sh is Some sh' then run_seq training ls' sh'
    else None
  else Some sh.

(** [ConvEncoder]: the attributes its constructor sets ([main] and [fc]
    for images of size 32 or 64, [model_enc] and [fc_mean] otherwise). *)
Record conv_encoder := ConvEncoder {
  ce_img_size : nat;
  ce_norm_ae_flag : bool;
  ce_main : option (seq layer);
  ce_fc : option layer;
  ce_model_enc : option (seq layer);
  ce_fc_mean : option layer
}.

(** [ConvEncoder.__init__(z_dim, c_dim, img_size, norm_ae_flag,
    num_filters)] *)
Definition ConvEncoder_init (z_dim c_dim img_size : nat) (norm_ae_flag : bool)
    (nf : nat) : conv_encoder :=
  if img_size == 32 then
    ConvEncoder img_size norm_ae_flag
      (Some [:: Conv2d c_dim nf 4 2 1; ReLU;
                Conv2d nf (nf * 2) 4 2 1; BatchNorm2d (nf * 2); ReLU;
                Conv2d (nf * 2) (nf * 2) 3 1 1; BatchNorm2d (nf * 2); ReLU;
                Conv2d (nf * 2) (nf * 2) 3 1 1; BatchNorm2d (nf * 2); ReLU;
                Conv2d (nf * 2) (nf * 2) 4 2 1; BatchNorm2d (nf * 2); ReLU;
                Conv2d (nf * 2) nf 4 2 1; BatchNorm2d nf; ReLU])
      (Some (Linear (nf * (img_size %/ 2 ^ 4) * (img_size %/ 2 ^ 4)) z_dim))
      None None
  else if img_size == 64 then
    ConvEncoder img_size norm_ae_flag
      (Some [:: Conv2d c_dim (nf %/ 4) 4 2 1; ReLU;
                Conv2d (nf %/ 4) (nf %/ 2) 4 2 1; BatchNorm2d (nf %/ 2); ReLU;
                Conv2d (nf %/ 2) nf 3 2 1; BatchNorm2d nf; ReLU;
                Conv2d nf (nf * 2) 3 1 1; BatchNorm2d (nf * 2); ReLU;
                Conv2d (nf * 2) (nf * 2) 4 2 1; BatchNorm2d (nf * 2); ReLU;
                Conv2d (nf * 2) nf 4 2 1; BatchNorm2d nf; ReLU])
      (Some (Linear (nf * (img_size %/ 2 ^ 5) * (img_size %/ 2 ^ 5)) z_dim))
      None None
  else
    ConvEncoder img_size norm_ae_flag None None
      (Some [:: Conv2d c_dim nf 4 2 1; BatchNorm2d nf; ReLU;
                Conv2d nf nf 4 2 1; BatchNorm2d nf; ReLU;
                ZeroPad2d 1 2 1 2;
                Conv2d nf nf 4 1 0; BatchNorm2d nf; ReLU])
      (Some (Linear (nf * img_size * img_size %/ 16) z_dim)).

(** [x.view(x.size(0), -1)] *)
Definition flatten_batch (sh : shape) : option shape :=
  if sh is b :: _ then view [:: Some b; None] sh else None.

(** [F.normalize(z_mean)] normalises along axis 1, which must exist. *)
Definition normalize_shape (sh : shape) : option shape :=
  if (1 < size sh)%N then Some sh else None.

(** [ConvEncoder.forward]; reading an attribute the constructor did not
    set raises. *)
Definition ConvEncoder_forward (training : bool) (m : conv_encoder)
    (x : shape) : option shape :=
  let z_mean :=
    if (ce_img_size m == 32) || (ce_img_size m == 64) then
      if ce_main m is Some main then
        if run_seq training main x is Some x1 then
          if flatten_batch x1 is Some x2 then
            if ce_fc m is Some fc then apply_layer training fc x2 else None
          else None
        else None
      else None
    else
      if ce_model_enc m is Some model_enc then
        if run_seq training model_enc x is Some x1 then
          if flatten_batch x1 is Some x2 then
            if ce_fc_mean m is Some fc_mean
            then apply_layer training fc_mean x2 else None
          else None
        else None
      else None in
  if z_mean is Some z then
    if ce_norm_ae_flag m then normalize_shape z else Some z
  else None.

(** [ConvDecoder]: [img_4] and the layers its constructor sets ([proj] and
    [main] for images of size 32 or 64, [fc] and [model] otherwise). *)
Record conv_decoder := ConvDecoder {
  cd_img_size : nat;
  cd_num_filters : nat;
  cd_img_4 : option nat;
  cd_proj : option (seq layer);
  cd_main : option (seq layer);
  cd_fc : option (seq layer);
  cd_model : option (seq layer)
}.

(** [self.img_4]: a quarter of 28, and 9 and 25 for 32 and 64; for no
    other size is the attribute set. *)
Definition ConvDecoder_img_4 (img_size : nat) : option nat :=
  if img_size == 28 then Some (img_size %/ 4)
  else if img_size == 32 then Some 9
  else if img_size == 64 then Some 25
  else None.

(** [ConvDecoder.__init__(z_dim, c_dim, img_size, num_filters)]; it reads
    [self.img_4] in either branch. *)
Definition ConvDecoder_init (z_dim c_dim img_size nf : nat) :
    option conv_decoder :=
  let img_4 := ConvDecoder_img_4 img_size in
  if (img_size == 32) || (img_size == 64) then
    if img_4 is Some i4 then
      Some (ConvDecoder img_size nf img_4
        (Some [:: Linear z_dim (nf * i4 * i4); ReLU])
        (Some [:: ConvTranspose2d nf (nf * 2) 3 1 0; BatchNorm2d (nf * 2); ReLU;
                  ConvTranspose2d (nf * 2) (nf * 2) 3 1 0; BatchNorm2d (nf * 2); ReLU;
                  ConvTranspose2d (nf * 2) (nf * 2) 3 1 1; BatchNorm2d (nf * 2); ReLU;
                  ConvTranspose2d (nf * 2) nf 3 1 1; BatchNorm2d nf; ReLU;
                  ConvTranspose2d nf nf 3 1 0; BatchNorm2d nf; ReLU;
                  ConvTranspose2d nf c_dim 4 2 0; Sigmoid])
        None None)
    else None
  else
    if img_4 is Some i4 then
      Some (ConvDecoder img_size nf img_4 None None
        (Some [:: Linear z_dim (i4 * i4 * nf); ReLU])
        (Some [:: ConvTranspose2d nf nf 4 1 1; BatchNorm2d nf; ReLU;
                  ConvTranspose2d nf nf 4 2 2; BatchNorm2d nf; ReLU;
                  ConvTranspose2d nf c_dim 4 2 1; Sigmoid]))
    else None.

(** [ConvDecoder.forward] *)
Definition ConvDecoder_forward (training : bool) (m : conv_decoder)
    (z : shape) : option shape :=
  if z is batch_size :: _ then
    if cd_img_4 m is Some i4 then
      let size := [:: Some batch_size; Some (cd_num_filters m); Some i4; Some i4] in
      if (cd_img_size m == 32) || (cd_img_size m == 64) then
        if cd_proj m is Some proj then
          if run_seq training proj z is Some t1 then
            if view size t1 is Some t2 then
              if cd_main m is Some main then run_seq training main t2 else None
            else None
          else None
        else None
      else
        if cd_fc m is Some fc then
          if run_seq training fc z is Some t1 then
            if view size t1 is Some t2 then
              if cd_model m is Some model then run_seq training model t2
              else None
            else None
          else None
        else None
    else None
  else None.

(** [ConvEncoder_old.__init__]: the stack for images of size 32 has
    dropout after its first five activations; every other size, 64
    included, gets the third architecture. *)
Definition ConvEncoder_old_init (z_dim c_dim img_size : nat)
    (norm_ae_flag : bool) (nf : nat) : conv_encoder :=
  if img_size == 32 then
    ConvEncoder img_size norm_ae_flag
      (Some [:: Conv2d c_dim nf 4 2 1; ReLU; Dropout;
                Conv2d nf (nf * 2) 4 2 1; BatchNorm2d (nf * 2); ReLU; Dropout;
                Conv2d (nf * 2) (nf * 2) 3 1 1; BatchNorm2d (nf * 2); ReLU; Dropout;
                Conv2d (nf * 2) (nf * 2) 3 1 1; BatchNorm2d (nf * 2); ReLU; Dropout;
                Conv2d (nf * 2) (nf * 2) 4 2 1; BatchNorm2d (nf * 2); ReLU; Dropout;
                Conv2d (nf * 2) nf 4 2 1; BatchNorm2d nf; ReLU])
      (Some (Linear (nf * (img_size %/ 2 ^ 4) * (img_size %/ 2 ^ 4)) z_dim))
      None None
  else
    ConvEncoder img_size norm_ae_flag None None
      (Some [:: Conv2d c_dim nf 4 2 1; BatchNorm2d nf; ReLU;
                Conv2d nf nf 4 2 1; BatchNorm2d nf; ReLU;
                ZeroPad2d 1 2 1 2;
                Conv2d nf nf 4 1 0; BatchNorm2d nf; ReLU])
      (Some (Linear (nf * img_size * img_size %/ 16) z_dim)).

(** [ConvEncoder_old.forward] *)
Definition ConvEncoder_old_forward (training : bool) (m : conv_encoder)
    (x : shape) : option shape :=
  let z_mean :=
    if ce_img_size m == 32 then
      if ce_main m is Some main then
        if run_seq training main x is Some x1 then
          if flatten_batch x1 is Some x2 then
            if ce_fc m is Some fc then apply_layer training fc x2 else None
          else None
        else None
      else None
    else
      if ce_model_enc m is Some model_enc then
        if run_seq training model_enc x is Some x1 then
          if flatten_batch x1 is Some x2 then
            if ce_fc_mean m is Some fc_mean
            then apply_layer training fc_mean x2 else None
          else None
        else None
      else None in
  if z_mean is Some z then
    if ce_norm_ae_flag m then normalize_shape z else Some z
  else None.

(** [self.img_4] of [ConvDecoder_old]: set for the sizes 28 and 32. *)
Definition ConvDecoder_old_img_4 (img_size : nat) : option nat :=
  if img_size == 28 then Some (img_size %/ 4)
  else if img_size == 32 then Some 9
  else None.

(** [ConvDecoder_old.__init__] *)
Definition ConvDecoder_old_init (z_dim c_dim img_size nf : nat) :
    option conv_decoder :=
  let img_4 := ConvDecoder_old_img_4 img_size in
  if img_size == 32 then
    if img_4 is Some i4 then
      Some (ConvDecoder img_size nf img_4
        (Some [:: Linear z_dim (nf * i4 * i4); ReLU])
        (Some [:: ConvTranspose2d nf (nf * 2) 3 1 0; BatchNorm2d (nf * 2); ReLU; Dropout;
                  ConvTranspose2d (nf * 2) (nf * 2) 3 1 0; BatchNorm2d (nf * 2); ReLU; Dropout;
                  ConvTranspose2d (nf * 2) (nf * 2) 3 1 1; BatchNorm2d (nf * 2); ReLU; Dropout;
                  ConvTranspose2d (nf * 2) (nf * 2) 3 1 1; BatchNorm2d (nf * 2); ReLU; Dropout;
                  ConvTranspose2d (nf * 2) (nf * 2) 3 1 0; BatchNorm2d (nf * 2); ReLU;
                  ConvTranspose2d (nf * 2) c_dim 4 2 0; Sigmoid])
        None None)
    else None
  else
    if img_4 is Some i4 then
      Some (ConvDecoder img_size nf img_4 None None
        (Some [:: Linear z_dim (i4 * i4 * nf); ReLU])
        (Some [:: ConvTranspose2d nf nf 4 1 1; BatchNorm2d nf; ReLU;
                  ConvTranspose2d nf nf 4 2 2; BatchNorm2d nf; ReLU;
                  ConvTranspose2d nf c_dim 4 2 1; Sigmoid]))
    else None.

(** [ConvDecoder_old.forward] *)
Definition ConvDecoder_old_forward (training : bool) (m : conv_decoder)
    (z : shape) : option shape :=
  if z is batch_size :: _ then
    if cd_img_4 m is Some i4 then
      let size := [:: Some batch_size; Some (cd_num_filters m); Some i4; Some i4] in
      if cd_img_size m == 32 then
        if cd_proj m is Some proj then
          if run_seq training proj z is Some t1 then
            if view size t1 is Some t2 then
              if cd_main m is Some main then run_seq training main t2 else None
            else None
          else None
        else None
      else
        if cd_fc m is Some fc then
          if run_seq training fc z is Some t1 then
            if view size t1 is Some t2 then
              if cd_model m is Some model then run_seq training model t2
              else None
            else None
          else None
        else None
    else None
  else None.

(** [BetaVAE]: latent dimension and the two [nn.Sequential] stacks. *)
Record beta_vae := BetaVAE {
  bv_z_dim : nat;
  bv_nc : nat;
  bv_encoder : seq layer;
  bv_decoder : seq layer
}.

(** [BetaVAE.__init__(z_dim, nc, img_size)]: one architecture for images
    of size 64, another for every other size. *)
Definition BetaVAE_init (z_dim nc img_size : nat) : beta_vae :=
  if img_size == 64 then
    BetaVAE z_dim nc
      [:: Conv2d nc 32 4 2 1; ReLU;
          Conv2d 32 32 4 2 1; ReLU;
          Conv2d 32 64 4 2 1; ReLU;
          Conv2d 64 64 4 2 1; ReLU;
          Conv2d 64 256 4 1 0; ReLU;
          View [:: None; Some (256 * 1 * 1)];
          Linear 256 (z_dim * 2)]
      [:: Linear z_dim 256;
          View [:: None; Some 256; Some 1; Some 1]; ReLU;
          ConvTranspose2d 256 64 4 1 0; ReLU;
          ConvTranspose2d 64 64 4 2 1; ReLU;
          ConvTranspose2d 64 32 4 2 1; ReLU;
          ConvTranspose2d 32 32 4 2 1; ReLU;
          ConvTranspose2d 32 nc 4 2 1]
  else
    BetaVAE z_dim nc
      [:: Conv2d nc 32 4 2 1; ReLU;
          Conv2d 32 32 4 2 1; ReLU;
          Conv2d 32 64 4 1 0; ReLU;
          Conv2d 64 256 4 1 0; ReLU;
          View [:: None; Some (256 * 1 * 1)];
          Linear 256 (z_dim * 2)]
      [:: Linear z_dim 256;
          View [:: None; Some 256; Some 1; Some 1]; ReLU;
          ConvTranspose2d 256 64 4 1 0; ReLU;
          ConvTranspose2d 64 32 4 1 0; ReLU;
          ConvTranspose2d 32 32 4 2 1; ReLU;
          ConvTranspose2d 32 nc 4 2 1].

(** [t[:, :k]] and [t[:, k:]]: two axes are indexed. *)
Definition slice_to (k : nat) (sh : shape) : option shape :=
  if sh is b :: n :: r then Some (b :: minn k n :: r) else None.

Definition slice_from (k : nat) (sh : shape) : option shape :=
  if sh is b :: n :: r then Some (b :: (n - k) :: r) else None.

(** Broadcasting of two shapes given from the last axis backwards. *)
Fixpoint broadcast_rev (s1 s2 : shape) : option shape :=
  match s1, s2 with
  | [::], _ => Some s2
  | _, [::] => Some s1
  | a :: r1, b :: r2 =>
      if (a == b) || (b == 1) then omap (cons a) (broadcast_rev r1 r2)
      else if a == 1 then omap (cons b) (broadcast_rev r1 r2)
      else None
  end.

Definition broadcast (s1 s2 : shape) : option shape :=
  omap rev (broadcast_rev (rev s1) (rev s2)).

(** [reparameterize(mu, logvar)]: [std] and [eps] have the shape of
    [logvar], and [mu + eps * std] broadcasts the two shapes. *)
Definition reparameterize_shape (mu logvar : shape) : option shape :=
  broadcast mu logvar.

(** [BetaVAE.forward]: the shapes of [(x_recon, mu, logvar)]. *)
Definition BetaVAE_forward (training : bool) (m : beta_vae) (x : shape) :
    option (shape * shape * shape) :=
  if run_seq training (bv_encoder m) x is Some distributions then
    if slice_to (bv_z_dim m) distributions is Some mu then
      if slice_from (bv_z_dim m) distributions is Some logvar then
        if reparameterize_shape mu logvar is Some z then
          if run_seq training (bv_decoder m) z is Some x_recon
          then Some (x_recon, mu, logvar) else None
        else None
      else None
    else None
  else None.

End Shapes.

(** ** The configuration of the script *)

(** The chain of tests on [dataset]: the numbers of channels, the image
    size and the number of filters, when a branch is taken and gets past
    its loader. The branch for ['svhn'] calls [load_svhn], a name the
    script does not import; for a name that matches no branch the three
    variables stay unbound and the construction of the encoder raises. *)
Definition dataset_config (dataset : String.string) : option (nat * nat * nat) :=
  if String.eqb dataset "mnist" then Some (1, 28, 64)%N
  else if String.eqb dataset "cifar10_vehicle" then Some (3, 32, 256)%N
  else if String.eqb dataset "cifar10_animal" then Some (3, 32, 256)%N
  else if String.eqb dataset "cifar10" then Some (3, 32, 256)%N
  else if String.eqb dataset "svhn" then None
  else if String.eqb dataset "fmnist" then Some (1, 28, 64)%N
  else if String.eqb dataset "celeba" then Some (3, 32, 256)%N
  else if String.eqb dataset "celeba64" then Some (3, 64, 128)%N
  else None.

(** The names for which a branch of the chain succeeds. *)
Definition datasets : seq String.string :=
  [:: "mnist"; "cifar10_vehicle"; "cifar10_animal"; "cifar10"; "fmnist";
      "celeba"; "celeba64"]%string.

(** * Facts *)

Section EngineFacts.
Variable F : realFieldType.
Variables (I O Kw Kb : nat) (a : arch F I O Kw Kb).

Lemma forward_weights B (s : mstate F Kw Kb) (x : 'M[F]_(B, I)) :
  weights (forward a s x).2 = weights s.
Proof. by rewrite /forward /=; case: ifP. Qed.

Lemma forward_wgrad B (s : mstate F Kw Kb) (x : 'M[F]_(B, I)) :
  wgrad (forward a s x).2 = wgrad s.
Proof. by rewrite /forward /=; case: ifP. Qed.

Lemma forward_training B (s : mstate F Kw Kb) (x : 'M[F]_(B, I)) :
  training (forward a s x).2 = training s.
Proof. by rewrite /forward /=; case: ifP => // ->. Qed.

Lemma forward_tracked B (s : mstate F Kw Kb) (x : 'M[F]_(B, I)) :
  num_batches_tracked (forward a s x).2 =
  (num_batches_tracked s + training s)%N.
Proof. by rewrite /forward /=; case: ifP => _ /=; rewrite ?addn1 ?addn0. Qed.

Lemma forward_val B (s : mstate F Kw Kb) (x : 'M[F]_(B, I)) :
  (forward a s x).1 = fwd_fn a s x.
Proof. by []. Qed.

Lemma forwardE B (s : mstate F Kw Kb) (x : 'M[F]_(B, I)) :
  forward a s x = (fwd_fn a s x, (forward a s x).2).
Proof. by []. Qed.

Lemma forward_eval B (s : mstate F Kw Kb) (x : 'M[F]_(B, I)) :
  training s = false -> (forward a s x).2 = s.
Proof. by rewrite /forward /= => ->. Qed.

Lemma accumulate_pending B (x : tensor F B I) (g : 'M[F]_(B, I)) :
  accumulate (grad x) g = Some (pending x + g).
Proof. by rewrite /accumulate /pending; case: (grad x) => [b|] //; rewrite add0r. Qed.

End EngineFacts.

Section FindJacobianFacts.
Variable F : realFieldType.
Variables (N C H W Z Kwe Kbe Kwd Kbd : nat).
Variable encoder : arch F (P C H W) Z Kwe Kbe.
Variable decoder : arch F Z (P C H W) Kwd Kbd.

Let lstate := loop_state F N C H W Z Kwe Kbe Kwd Kbd.
Let wld := world F N C H W Kwe Kbe Kwd Kbd.
Local Notation core' := (@core F N C H W Z Kwe Kbe Kwd Kbd).

Lemma jac_stepE z g d (st : lstate) :
  g_leaf g ->
  jac_step encoder decoder z g d st =
  Some (LoopState
          (set_column (ls_jac st) d
             (pending (w_x (ls_world st)) + vjp encoder g (one_code F N d)))
          (World
             (Tensor (data (w_x (ls_world st)))
                     (requires_grad (w_x (ls_world st))) (Some 0))
             (backward encoder g (one_code F N d) (w_x (ls_world st))
                       (w_enc (ls_world st))).2
             (forward decoder (w_dec (ls_world st)) z).2
             (w_log (ls_world st) ++ [:: EvDecode; EvBackward d]))).
Proof.
move=> leaf; rewrite /jac_step /backward leaf accumulate_pending.
by case: (forward decoder _ z).
Qed.

Lemma jac_loop_total z g ds (st : lstate) :
  g_leaf g -> exists st', jac_loop encoder decoder z g ds st = Some st'.
Proof.
move=> leaf; elim: ds st => [|d ds IH] st /=; first by exists st.
by rewrite jac_stepE.
Qed.

Lemma jac_loop_jac z g ds (st st' : lstate) :
  g_leaf g -> pending (w_x (ls_world st)) = 0 ->
  jac_loop encoder decoder z g ds st = Some st' ->
  forall n p e,
    ls_jac st' n p e =
    if e \in ds then vjp encoder g (one_code F N e) n p else ls_jac st n p e.
Proof.
move=> leaf; elim: ds st => [|d ds IH] st /= pend.
  by case=> <-.
rewrite jac_stepE // => /IH run n p e.
rewrite run // in_cons /set_column ffunE mxE pend add0r.
by case: (e \in ds); rewrite ?orbT //= orbF; case: eqP => // ->.
Qed.

Lemma jac_loop_x z g ds (st st' : lstate) :
  g_leaf g -> jac_loop encoder decoder z g ds st = Some st' ->
  [/\ data (w_x (ls_world st')) = data (w_x (ls_world st)),
      requires_grad (w_x (ls_world st')) = requires_grad (w_x (ls_world st)) &
      grad (w_x (ls_world st')) =
      if ds is [::] then grad (w_x (ls_world st)) else Some 0].
Proof.
move=> leaf; elim: ds st => [|d ds IH] st /=; first by case=> <-.
rewrite jac_stepE // => /IH [/= -> -> ->].
by split=> //; case: ds {IH}.
Qed.

Lemma jac_loop_enc z g ds (st st' : lstate) :
  g_leaf g -> jac_loop encoder decoder z g ds st = Some st' ->
  [/\ weights (w_enc (ls_world st')) = weights (w_enc (ls_world st)),
      training (w_enc (ls_world st')) = training (w_enc (ls_world st)),
      running (w_enc (ls_world st')) = running (w_enc (ls_world st)) &
      num_batches_tracked (w_enc (ls_world st')) =
      num_batches_tracked (w_enc (ls_world st))].
Proof.
move=> leaf; elim: ds st => [|d ds IH] st /=; first by case=> <-.
by rewrite jac_stepE // => /IH [/= -> -> -> ->].
Qed.

Lemma jac_loop_dec z g ds (st st' : lstate) :
  g_leaf g -> jac_loop encoder decoder z g ds st = Some st' ->
  [/\ weights (w_dec (ls_world st')) = weights (w_dec (ls_world st)),
      wgrad (w_dec (ls_world st')) = wgrad (w_dec (ls_world st)),
      training (w_dec (ls_world st')) = training (w_dec (ls_world st)) &
      num_batches_tracked (w_dec (ls_world st')) =
      (num_batches_tracked (w_dec (ls_world st)) +
       training (w_dec (ls_world st)) * size ds)%N].
Proof.
move=> leaf; elim: ds st => [|d ds IH] st /=.
  by case=> <-; rewrite muln0 addn0.
rewrite jac_stepE // => /IH [/= -> -> -> ->].
rewrite forward_weights forward_wgrad forward_training forward_tracked.
by split=> //; rewrite -addnA mulnS.
Qed.

Lemma jac_loop_dec_iter z g ds (st st' : lstate) :
  g_leaf g -> jac_loop encoder decoder z g ds st = Some st' ->
  w_dec (ls_world st') =
  iter (size ds) (fun s => (forward decoder s z).2) (w_dec (ls_world st)).
Proof.
move=> leaf; elim: ds st => [|d ds IH] st /=; first by case=> <-.
by rewrite jac_stepE // => /IH ->; rewrite -iterSr.
Qed.

Lemma jac_loop_log z g ds (st st' : lstate) :
  g_leaf g -> jac_loop encoder decoder z g ds st = Some st' ->
  w_log (ls_world st') =
  w_log (ls_world st) ++
  flatten [seq [:: EvDecode; EvBackward (val d)] | d <- ds].
Proof.
move=> leaf; elim: ds st => [|d ds IH] st /=.
  by case=> <-; rewrite cats0.
by rewrite jac_stepE // => /IH ->; rewrite /= -catA.
Qed.

Lemma clean_pending B I (x : tensor F B I) : clean_grad x -> pending x = 0.
Proof. by rewrite /clean_grad /pending; case: (grad x) => // b /eqP. Qed.

Lemma find_jacobianE (w : wld) :
  find_jacobian encoder decoder w =
  if jac_loop encoder decoder (fwd_fn encoder (w_enc w) (data (w_x w)))
       (base_graph w) (enum 'I_Z) (loop_start encoder w) is Some st
  then Some (ls_jac st, ls_world st) else None.
Proof. by []. Qed.

Lemma find_jacobian_no_decodeE (w : wld) :
  find_jacobian_no_decode encoder (Z := Z) w =
  if jac_loop_no_decode encoder (base_graph w) (enum 'I_Z) (loop_start encoder w)
    is Some st
  then Some (ls_jac st, ls_world st) else None.
Proof. by []. Qed.

Lemma find_jacobian_run (w : wld) :
  exists2 st,
    jac_loop encoder decoder (fwd_fn encoder (w_enc w) (data (w_x w)))
      (base_graph w) (enum 'I_Z) (loop_start encoder w) = Some st &
    find_jacobian encoder decoder w = Some (ls_jac st, ls_world st).
Proof.
have [st run] := @jac_loop_total (fwd_fn encoder (w_enc w) (data (w_x w)))
  (base_graph w) (enum 'I_Z) (loop_start encoder w) isT.
by exists st; rewrite ?find_jacobianE run.
Qed.

Lemma vjp_one_code (g : graph F (P C H W) Kwe Kbe N) (d : 'I_Z) :
  vjp encoder g (one_code F N d) =
  \sum_m jac_fn encoder (g_mod g) (g_in g) m d.
Proof.
rewrite /vjp; apply: eq_bigr => m _.
rewrite (bigD1 d) //= mxE eqxx scale1r big1 ?addr0 // => e ne.
by rewrite mxE (negbTE ne) scale0r.
Qed.

Lemma find_jacobian_columns (w : wld) :
  clean_grad (w_x w) ->
  exists J w',
    find_jacobian encoder decoder w = Some (J, w') /\
    forall (d : 'I_Z) n p,
      J n p d = vjp encoder (base_graph w) (one_code F N d) n p.
Proof.
move=> clean; have [st run ->] := find_jacobian_run w.
exists (ls_jac st), (ls_world st); split=> // d n p.
rewrite (jac_loop_jac _ _ run) ?mem_enum //=.
by rewrite /pending /=; move: clean; rewrite /clean_grad; case: grad => // b /eqP.
Qed.

Lemma count_encode_loop (ds : seq 'I_Z) :
  count is_encode (flatten [seq [:: EvDecode; EvBackward (val d)] | d <- ds]) = 0%N.
Proof. by elim: ds. Qed.

Lemma step_core z g d (st1 st2 : lstate) :
  core st1 = core st2 ->
  omap core' (jac_step encoder decoder z g d st1) =
  omap core' (jac_step_no_decode encoder g d st2).
Proof.
case=> eJ ex ee; rewrite /jac_step /jac_step_no_decode eJ ex ee.
case: (forward decoder _ z) => x_hat dec1.
case: (backward encoder g (one_code F N d) _ _) => x' e'.
by case: (grad x') => // gx; case: (zero_grad x').
Qed.

Lemma loop_core z g ds (st1 st2 : lstate) :
  core st1 = core st2 ->
  omap core' (jac_loop encoder decoder z g ds st1) =
  omap core' (jac_loop_no_decode encoder g ds st2).
Proof.
elim: ds st1 st2 => [|d ds IH] st1 st2 eqc /=; first by rewrite eqc.
have := step_core z g d eqc.
case: (jac_step _ _ _ _ _ _) => [st1'|]; case: (jac_step_no_decode _ _ _ _) => [st2'|] //.
by move/Some_inj => eqc'; apply: IH.
Qed.

End FindJacobianFacts.

Section RenderFacts.
Variable F : realFieldType.
Variables (C H W Z Kwd Kbd : nat).
Variable decoder : arch F Z (P C H W) Kwd Kbd.

Lemma imshowE (fig : figure F C H W) r c img :
  imshow_accepts C H W -> (r < nrows fig)%N -> (c < ncols fig)%N ->
  imshow fig r c img =
  Some (Figure (nrows fig) (ncols fig)
          (fun r' c' => if (r' == r) && (c' == c) then Some img
                        else cells fig r' c')).
Proof. by rewrite /imshow => -> -> ->. Qed.

Lemma show_loopP B (x_hat : 'M[F]_(B, P C H W)) r off (ks : seq 'I_B) (fig : figure F C H W) :
  imshow_accepts C H W -> (r < nrows fig)%N -> (off + B <= ncols fig)%N ->
  exists fig',
    [/\ show_loop x_hat r off ks fig = Some fig',
        nrows fig' = nrows fig, ncols fig' = ncols fig,
        forall k, k \in ks -> cells fig' r (off + k) = Some (row k x_hat) &
        forall r' c', (r' != r) || (c' \notin [seq (off + val k)%N | k <- ks]) ->
          cells fig' r' c' = cells fig r' c'].
Proof.
move=> ok ltr lec; elim: ks fig ltr lec => [|k ks IH] fig ltr lec /=.
  by exists fig; split.
have ltc : (off + k < ncols fig)%N.
  by apply: leq_trans lec; rewrite ltn_add2l.
rewrite imshowE //; set fig1 := Figure _ _ _.
have [fig' [-> nr nc hit frame]] := IH fig1 ltr lec.
exists fig'; split=> // [k'|r' c'].
  rewrite in_cons; case kin: (k' \in ks); first by rewrite orbT => _; apply: hit.
  rewrite orbF => /eqP ek; rewrite {k'}ek in kin *; rewrite frame /= ?eqxx //.
  apply/orP; right; apply/negP => /mapP [k0 k0in /eqP].
  by rewrite eqn_add2l => /eqP /val_inj k0k; rewrite k0k k0in in kin.
rewrite in_cons negb_or; case/orP=> [ner | /andP [nec nin]].
  by rewrite frame ?ner //= (negbTE ner).
by rewrite frame ?nin ?orbT //= (negbTE nec) andbF.
Qed.

Lemma shifted_enum_range B off c :
  c \in [seq (off + val k)%N | k <- enum 'I_B] -> (off <= c < off + B)%N.
Proof. by case/mapP=> k _ ->; rewrite leq_addr ltn_add2l ltn_ord. Qed.

Lemma render_rowP cr xn z v d (ltdZ : (d < Z)%N) (fig : figure F C H W) dec :
  imshow_accepts C H W -> (d < 5)%N -> nrows fig = 5%N -> ncols fig = 11%N ->
  let dz := Ordinal ltdZ in
  exists fig',
    [/\ render_row decoder cr xn z v d (fig, dec) =
          Some (fig', dec_after_row decoder dec cr z v dz),
        nrows fig' = 5%N /\ ncols fig' = 11%N,
        cells fig' d 5 = Some xn,
        forall k : 'I_5,
          cells fig' d k =
            Some (row k (fwd_fn decoder (dec_after_pos decoder dec cr z v dz)
                           (neg_batch cr z v dz))) /\
          cells fig' d (6 + k) =
            Some (row k (fwd_fn decoder dec (pos_batch cr z v dz))) &
        forall r' c', r' != d -> cells fig' r' c' = cells fig r' c'].
Proof.
move=> ok ltd nr nc dz; rewrite /render_row imshowE ?nr ?nc //.
set fig1 := Figure _ _ _; rewrite insubT -/dz.
rewrite -/(pos_batch cr z v dz) -/(neg_batch cr z v dz).
rewrite [forward decoder dec _]forwardE -/(dec_after_pos decoder dec cr z v dz).
rewrite [forward decoder (dec_after_pos decoder _ _ _ _ _) _]forwardE.
rewrite -/(dec_after_row decoder dec cr z v dz).
set xp := fwd_fn decoder dec _; set xm := fwd_fn decoder (dec_after_pos decoder _ _ _ _ _) _.
have [fig2 [-> nr2 nc2 hit2 frame2]] :=
  @show_loopP 5 xp d 6 (enum 'I_5) fig1 ok ltd (leqnn 11).
have ltd2 : (d < nrows fig2)%N by rewrite nr2.
have le2 : (0 + 5 <= ncols fig2)%N by rewrite nc2.
have [fig3 [-> nr3 nc3 hit3 frame3]] :=
  @show_loopP 5 xm d 0 (enum 'I_5) fig2 ok ltd2 le2.
exists fig3; split=> //.
- by rewrite nr3 nr2 nc3 nc2.
- rewrite frame3 ?frame2 /= ?eqxx //.
    by apply/orP; right; apply/negP => /shifted_enum_range.
  by apply/orP; right; apply/negP => /shifted_enum_range.
- move=> k; split; first by rewrite -[X in cells _ _ X]add0n hit3 // mem_enum.
  rewrite frame3 ?hit2 ?mem_enum //.
  apply/orP; right; apply/negP => /shifted_enum_range.
  by rewrite add0n ltnNge (@leq_trans 6) ?leq_addr // andbF.
- move=> r' c' ner; rewrite frame3 ?ner // frame2 ?ner //=.
  by rewrite (negbTE ner).
Qed.

Lemma render_rows_cons cr xn z v d ds (st : figure F C H W * mstate F Kwd Kbd) :
  render_rows decoder cr xn z v (d :: ds) st =
  if render_row decoder cr xn z v d st is Some st'
  then render_rows decoder cr xn z v ds st' else None.
Proof. by []. Qed.

Lemma render_rowsP cr xn z v dec n m (fig : figure F C H W) :
  imshow_accepts C H W -> (m + n <= 5)%N -> (m + n <= Z)%N -> nrows fig = 5%N -> ncols fig = 11%N ->
  exists fig',
    [/\ render_rows decoder cr xn z v (iota m n) (fig, dec_before decoder dec cr z v m) =
          Some (fig', dec_before decoder dec cr z v (m + n)),
        nrows fig' = 5%N /\ ncols fig' = 11%N,
        forall d (ltdZ : (d < Z)%N), (m <= d < m + n)%N ->
          row_filled decoder fig' cr xn z v (dec_before decoder dec cr z v d) (Ordinal ltdZ) &
        forall r' c', ~~ (m <= r' < m + n)%N -> cells fig' r' c' = cells fig r' c'].
Proof.
move=> ok; elim: n m fig => [|n IH] m fig le5 leZ nr nc.
  by exists fig; rewrite /= addn0; split=> // d ltdZ; case: ltngtP.
rewrite -[iota m n.+1]/(m :: iota m.+1 n) render_rows_cons.
have ltmZ : (m < Z)%N by apply: leq_trans leZ; rewrite addnS ltnS leq_addr.
have ltm5 : (m < 5)%N by apply: leq_trans le5; rewrite addnS ltnS leq_addr.
have [fig1 [-> [nr1 nc1] c5 ck frame1]] :=
  @render_rowP cr xn z v m ltmZ fig (dec_before decoder dec cr z v m) ok ltm5 nr nc.
have -> : dec_after_row decoder (dec_before decoder dec cr z v m) cr z v (Ordinal ltmZ) =
          dec_before decoder dec cr z v m.+1 by rewrite /= insubT.
rewrite addnS -addSn in le5 leZ *.
have [fig' [-> [nr' nc'] filled frame']] := IH m.+1 fig1 le5 leZ nr1 nc1.
exists fig'; split=> // [d ltdZ|r' c'].
  rewrite leq_eqVlt; case: (altP (m =P d)) => [emd _|_ /= rng]; last exact: filled.
  move: ltdZ; rewrite -{d}emd => ltdZ.
  have -> : Ordinal ltdZ = Ordinal ltmZ :> 'I_Z by apply: val_inj.
  have out : ~~ (m.+1 <= m < m.+1 + n)%N by rewrite ltnn.
  rewrite /row_filled /= frame' //; split=> // k.
  by rewrite !frame' //; apply: ck.
move=> out.
have ner : r' != m.
  by apply: contraNneq out => ->; rewrite leqnn addSn ltnS leq_addr.
have out' : ~~ (m < r' < m.+1 + n)%N.
  by apply: contraNN out => /andP [/ltnW -> ->].
by rewrite frame' ?frame1.
Qed.

Lemma linspaceE (a b : F) steps (i : 'I_steps) :
  (1 < steps)%N ->
  linspace a b steps 0 i = a + i%:R * ((b - a) / (steps - 1)%:R).
Proof.
move=> gt1; rewrite /linspace mxE (gtn_eqF gt1); set s := (b - a) / _.
case: ifP => // _.
have nz : (steps - 1)%:R != 0 :> F by rewrite pnatr_eq0 -lt0n subn_gt0.
have ns : (steps - 1)%:R * s = b - a by rewrite mulrC divfK.
have lei : (i <= steps - 1)%N by rewrite subn1 -ltnS prednK ?ltn_ord // ltnW.
rewrite natrB // mulrBl ns !opprB addrCA [b + _]addrC subrK.
by rewrite addrC.
Qed.



End RenderFacts.

Section Toys.
Variable F : realFieldType.

Lemma linear_arch_exact I O (A : 'M[F]_(I, O)) B s (x h : 'M[F]_(B, I)) m d :
  fwd_fn (linear_arch A) s (x + h) m d =
  fwd_fn (linear_arch A) s x m d +
  \sum_n \sum_i h n i * jac_fn (linear_arch A) s x m d n i.
Proof.
rewrite /= mulmxDl mxE; congr (_ + _); rewrite mxE.
rewrite [RHS](bigD1 m) //= [X in _ + X]big1 ?addr0.
  by move=> n ne; apply: big1 => i _; rewrite mxE (negbTE ne) mul0r mulr0.
by apply: eq_bigr => i _; rewrite mxE eqxx mul1r.
Qed.

Lemma scaled_arch_exact I O (A : 'M[F]_(I, O)) B (s s' : mstate F 1 0)
    (x h : 'M[F]_(B, I)) m d :
  (fwd_fn (scaled_arch A) s (x + h) m d =
   fwd_fn (scaled_arch A) s x m d +
   \sum_n \sum_i h n i * jac_fn (scaled_arch A) s x m d n i) /\
  (fwd_fn (scaled_arch A) s' x m d =
   fwd_fn (scaled_arch A) s x m d +
   (weights s' 0 0 - weights s 0 0) * wjac_fn (scaled_arch A) s x m d 0 0).
Proof.
split; last by rewrite /= !mxE -mulrDl addrC subrK.
rewrite /= mulmxDl scalerDr mxE; congr (_ + _); rewrite !mxE mulr_sumr.
rewrite [RHS](bigD1 m) //= [X in _ + X]big1 ?addr0.
  by move=> n ne; apply: big1 => i _; rewrite mxE (negbTE ne) mul0r mulr0.
by apply: eq_bigr => i _; rewrite mxE eqxx mul1r mulrCA.
Qed.

End Toys.



Section DirectionFacts.
Variable F : realFieldType.
Variables (P Z : nat).

Lemma directionE (v : 'M[F]_(Z, Z)) d : direction v d = row d v.
Proof. by rewrite /direction tr_col trmxK. Qed.

Lemma dot_direction (v : 'M[F]_(Z, Z)) d d' :
  dot (direction v d) (direction v d') = (v *m v^T) d d'.
Proof.
by rewrite !directionE /dot mxE; apply: eq_bigr => j _; rewrite !mxE.
Qed.



End DirectionFacts.

Lemma is_svd3 : is_svd A3 U3 S3 V3.
Proof.
apply/and5P; split.
- apply/eqP/matrixP => i j; rewrite !mxE !big_ord_recl big_ord0.
  rewrite !mxE !big_ord_recl !big_ord0 !mxE /=.
  by ord3 i; ord3 j.
- apply/eqP/matrixP => i j; rewrite !mxE !big_ord_recl big_ord0 !mxE /=.
  by ord3 i; ord3 j.
- apply/eqP/matrixP => i j; rewrite !mxE !big_ord_recl big_ord0 !mxE /=.
  by ord3 i; ord3 j.
- by apply/forallP => i; rewrite mxE /=; ord3 i.
- apply/forallP => i; apply/forallP => j; apply/implyP; rewrite !mxE /=.
  by ord3 i; ord3 j.
Qed.

Section RenderFacts2.
Variable F : realFieldType.
Variables (C H W Z Kwd Kbd : nat).
Variable decoder : arch F Z (P C H W) Kwd Kbd.









Lemma weights_dec_before (dec : mstate F Kwd Kbd) cr z v d :
  weights (dec_before decoder dec cr z v d) = weights dec.
Proof.
elim: d => [|d IH] //=; case: insubP => [dz _ _|_] //.
by rewrite /dec_after_row /dec_after_pos !forward_weights.
Qed.


Lemma render_sampleP nd cr xn z v (dec : mstate F Kwd Kbd) :
  imshow_accepts C H W -> (nd <= 5)%N -> (nd <= Z)%N ->
  exists fig,
    [/\ render_sample decoder nd cr xn z v dec =
          Some (fig, dec_before decoder dec cr z v nd),
        nrows fig = 5%N /\ ncols fig = 11%N &
        forall d (ltdZ : (d < Z)%N), (d < nd)%N ->
          row_filled decoder fig cr xn z v (dec_before decoder dec cr z v d)
            (Ordinal ltdZ)].
Proof.
move=> ok le5 leZ.
have [fig [run sz filled _]] :=
  @render_rowsP _ _ _ _ _ _ _ decoder cr xn z v dec nd 0 (subplots F C H W 5 11)
    ok le5 leZ erefl erefl.
by exists fig; split.
Qed.


End RenderFacts2.






(** ** The claims about find_jacobian *)

Section FindJacobianClaims.

Variable F : realFieldType.
Variables (N C H W Z Kwe Kbe Kwd Kbd : nat).
Variable encoder : arch F (P C H W) Z Kwe Kbe.
Variable decoder : arch F Z (P C H W) Kwd Kbd.

Let wld := world F N C H W Kwe Kbe Kwd Kbd.
Let lstate := loop_state F N C H W Z Kwe Kbe Kwd Kbd.

Lemma jac_step_zero z g d (st st' : lstate) :
  jac_step encoder decoder z g d st = Some st' ->
  grad (w_x (ls_world st')) = Some 0.
Proof.
rewrite /jac_step; case: (forward decoder _ z) => x_hat dec'.
case: (backward encoder g (one_code F N d) _ _) => x' e'.
by rewrite /zero_grad; case: (grad x') => [b|] //; case=> <-.
Qed.

Lemma enum_ord_events (f : nat -> seq event) :
  flatten [seq f (val d) | d <- enum 'I_Z] = flatten [seq f d | d <- iota 0 Z].
Proof. by rewrite -val_enum_ord -map_comp. Qed.

(** C1 (amended): when [x] enters without a pending gradient,
    [find_jacobian] returns, and entry [n, c, h, w, d] of its result is the
    partial derivative of latent dimension [d] of the encoder's output,
    summed over the batch, with respect to pixel (c, h, w) of input sample
    [n], taken at the input batch. The decoder does not occur in it. *)
Theorem find_jacobian_is_encoder_jacobian (w : wld) :
  clean_grad (w_x w) ->
  exists J w',
    find_jacobian encoder decoder w = Some (J, w') /\
    forall n c h x (d : 'I_Z),
      J n (pixel c h x) d =
      \sum_m jac_fn encoder (w_enc w) (data (w_x w)) m d n (pixel c h x).
Proof.
move=> clean; have [J [w' [run cols]]] := find_jacobian_columns encoder decoder clean.
exists J, w'; split=> // n c h x d.
by rewrite cols vjp_one_code summxE.
Qed.

(** C3: one call of [find_jacobian] runs the encoder once, before the
    loop: the log it leaves is that single forward pass followed, for each
    latent dimension in turn, by one decoder pass and one backward pass; the
    BatchNorm buffers of the encoder are those of one forward pass on [x];
    every decoder pass of the loop is fed the latent batch of that one
    forward pass; and every column of the result is a derivative of the
    encoder taken at the same point, the input batch with the module as it
    was when the call began. *)
Theorem find_jacobian_encodes_once (w : wld) :
  clean_grad (w_x w) ->
  exists J w',
    [/\ find_jacobian encoder decoder w = Some (J, w'),
        w_log w' =
          w_log w ++
          EvEncode :: flatten [seq [:: EvDecode; EvBackward d] | d <- iota 0 Z] /\
        count is_encode (w_log w') = (count is_encode (w_log w)).+1,
        num_batches_tracked (w_enc w') =
          (num_batches_tracked (w_enc w) + training (w_enc w))%N /\
        running (w_enc w') =
          (if training (w_enc w)
           then stats_fn encoder (w_enc w) (data (w_x w))
           else running (w_enc w)),
        w_dec w' =
          iter Z (fun s =>
                    (forward decoder s
                       (fwd_fn encoder (w_enc w) (data (w_x w)))).2)
               (w_dec w) &
        forall (d : 'I_Z) n p,
          J n p d = \sum_m jac_fn encoder (w_enc w) (data (w_x w)) m d n p].
Proof.
move=> clean; have [st run eJ] := find_jacobian_run encoder decoder w.
have [J [w' [eJ' cols]]] := find_jacobian_columns encoder decoder clean.
have [eJs ews] : J = ls_jac st /\ w' = ls_world st.
  by move: eJ'; rewrite eJ => -[].
have leaf : g_leaf (base_graph w) by [].
have elog := jac_loop_log leaf run.
have [_ _ er en] := jac_loop_enc leaf run.
have ed := jac_loop_dec_iter leaf run.
exists J, w'; split=> //.
- rewrite ews elog /=; split.
    by rewrite -cats1 -catA /= (enum_ord_events (fun d => [:: EvDecode; EvBackward d])).
  by rewrite -cats1 !count_cat /= count_encode_loop addn0 addn1.
- rewrite ews en er /= forward_tracked; split=> //.
  by rewrite /forward; case: (training _).
- by rewrite ews ed size_enum_ord.
- by move=> d n p; rewrite cols vjp_one_code summxE.
Qed.

(** C4: every pass of the loop body leaves the gradient buffer of [x]
    zeroed, and when [x] enters without a pending gradient column [d] of the
    result is the gradient of the one-hot seed of dimension [d] alone: the
    sum over the batch of the derivatives of latent dimension [d], to which
    no other dimension contributes. *)
Theorem find_jacobian_columns_independent (w : wld) :
  clean_grad (w_x w) ->
  exists J w',
    [/\ find_jacobian encoder decoder w = Some (J, w'),
        forall z g d (st st' : lstate),
          jac_step encoder decoder z g d st = Some st' ->
          grad (w_x (ls_world st')) = Some 0,
        forall (d : 'I_Z) n p,
          J n p d = vjp encoder (base_graph w) (one_code F N d) n p &
        forall (d : 'I_Z),
          vjp encoder (base_graph w) (one_code F N d) =
          \sum_m jac_fn encoder (w_enc w) (data (w_x w)) m d].
Proof.
move=> clean; have [J [w' [run cols]]] := find_jacobian_columns encoder decoder clean.
exists J, w'; split=> // [z g d st st'|d]; first exact: jac_step_zero.
by rewrite vjp_one_code.
Qed.

(** C7: the Jacobian returned by [find_jacobian] is the one returned by
    the same function without the [decoder(z)] call in its loop, for every
    input and every pair of networks. *)
Theorem find_jacobian_decode_irrelevant (w : wld) :
  omap fst (find_jacobian encoder decoder w) =
  omap fst (find_jacobian_no_decode encoder (Z := Z) w).
Proof.
rewrite find_jacobianE find_jacobian_no_decodeE.
have := loop_core encoder decoder (fwd_fn encoder (w_enc w) (data (w_x w)))
  (base_graph w) (enum 'I_Z) (erefl (core (loop_start encoder w))).
case: (jac_loop _ _ _ _ _ _) => [st1|]; case: (jac_loop_no_decode _ _ _ _) => [st2|] //.
by case=> ->.
Qed.

(** C8 (amended): [find_jacobian] returns for every input; afterwards the
    values of the input tensor are unchanged, the tensor requires gradients
    and (when there is a latent dimension) its gradient buffer is zero, and
    the parameters and the training flags of encoder and decoder are
    unchanged. *)
Theorem find_jacobian_frame (w : wld) :
  exists J w',
    [/\ find_jacobian encoder decoder w = Some (J, w'),
        data (w_x w') = data (w_x w),
        requires_grad (w_x w') /\ ((0 < Z)%N -> grad (w_x w') = Some 0),
        weights (w_enc w') = weights (w_enc w) /\
        training (w_enc w') = training (w_enc w) &
        weights (w_dec w') = weights (w_dec w) /\
        training (w_dec w') = training (w_dec w)].
Proof.
have [st run eJ] := find_jacobian_run encoder decoder w.
have leaf : g_leaf (base_graph w) by [].
have [xd xr xg] := jac_loop_x leaf run.
have [ew et _ _] := jac_loop_enc leaf run.
have [dw _ dt _] := jac_loop_dec leaf run.
exists (ls_jac st), (ls_world st); split=> //.
- split; first by rewrite xr.
  move=> Zpos; rewrite xg; case E: (enum 'I_Z) => [|d ds] //.
  by have := size_enum_ord Z; rewrite E /= => Z0; rewrite -Z0 in Zpos.
- by rewrite ew et /= forward_weights forward_training.
Qed.

End FindJacobianClaims.

(** The run on [world1]: what the call changes. *)
Lemma find_jacobian_world1 :
  exists J w',
    [/\ find_jacobian enc1 dec1 world1 = Some (J, w'),
        requires_grad (w_x w') /\ grad (w_x w') = Some 0,
        num_batches_tracked (w_enc w') = 1%N &
        num_batches_tracked (w_dec w') = 1%N].
Proof.
have [st run eJ] := find_jacobian_run enc1 dec1 world1.
have leaf : g_leaf (base_graph world1) by [].
have [_ xr xg] := jac_loop_x leaf run.
have [_ _ _ en] := jac_loop_enc leaf run.
have [_ _ _ dn] := jac_loop_dec leaf run.
exists (ls_jac st), (ls_world st); split=> //.
- split; first by rewrite xr.
  rewrite xg; case E: (enum 'I_1) => [|d ds] //.
  by have := size_enum_ord 1; rewrite E.
- by rewrite dn /= size_enum_ord.
Qed.

(** C1, as stated, fails: with an encoder that doubles its input and a
    decoder that triples its input, the entry of the result is 2, the
    derivative of the encoder, while the derivative of the decoded pixel
    with respect to the latent dimension is 3. *)
Lemma find_jacobian_not_decoder_jacobian :
  exists J w',
    [/\ find_jacobian enc1 dec1 world1 = Some (J, w'),
        J ord0 (pixel ord0 ord0 ord0) ord0 = 2,
        jac_fn dec1 (w_dec world1)
          (fwd_fn enc1 (w_enc world1) (data (w_x world1)))
          ord0 (pixel ord0 ord0 ord0) ord0 ord0 = 3 &
        J ord0 (pixel ord0 ord0 ord0) ord0 <>
        jac_fn dec1 (w_dec world1)
          (fwd_fn enc1 (w_enc world1) (data (w_x world1)))
          ord0 (pixel ord0 ord0 ord0) ord0 ord0].
Proof.
have [J [w' [run cols]]] :=
  @find_jacobian_columns _ _ _ _ _ _ _ _ _ _ enc1 dec1 world1 isT.
have eJ : J ord0 (pixel ord0 ord0 ord0) ord0 = 2.
  by rewrite cols vjp_one_code summxE big_ord_recl big_ord0 /= !mxE eqxx mul1r addr0.
have eD : jac_fn dec1 (w_dec world1)
          (fwd_fn enc1 (w_enc world1) (data (w_x world1)))
          ord0 (pixel ord0 ord0 ord0) ord0 ord0 = 3.
  by rewrite /= !mxE eqxx mul1r.
by exists J, w'; split=> //; rewrite eJ eD.
Qed.

Lemma find_jacobian_is_encoder_jacobian_witness :
  clean_grad (w_x world1) /\
  exists J w',
    find_jacobian enc1 dec1 world1 = Some (J, w') /\
    forall n c h x (d : 'I_1),
      J n (pixel c h x) d =
      \sum_m jac_fn enc1 (w_enc world1) (data (w_x world1)) m d n (pixel c h x).
Proof.
split; first by reflexivity.
by apply: (@find_jacobian_is_encoder_jacobian _ _ _ _ _ _ _ _ _ _ enc1 dec1 world1).
Defined.

Lemma scaled_arch_columns (F : realFieldType) N I O (A : 'M[F]_(I, O))
    (s : mstate F 1 0) (x : 'M[F]_(N, I)) (d : 'I_O) n p :
  \sum_m jac_fn (scaled_arch A) s x m d n p = weights s 0 0 * A p d.
Proof.
rewrite (bigD1 n) //= mxE eqxx mul1r big1 ?addr0 // => m ne.
by rewrite mxE eq_sym (negbTE ne) mul0r.
Qed.

Lemma find_jacobian_encodes_once_witness :
  clean_grad (w_x world4) /\
  exists J w',
    [/\ find_jacobian enc4 dec4 world4 = Some (J, w'),
        w_log w' =
          [:: EvEncode; EvDecode; EvBackward 0; EvDecode; EvBackward 1] /\
        count is_encode (w_log w') = 1%N,
        num_batches_tracked (w_enc w') = 1%N /\
        running (w_enc w') =
          stats_fn enc4 (w_enc world4) (data (w_x world4)),
        w_dec w' =
          iter 2 (fun s =>
                    (forward dec4 s
                       (fwd_fn enc4 (w_enc world4) (data (w_x world4)))).2)
               (w_dec world4) &
        forall (d : 'I_2) n p,
          J n p d =
          \sum_m jac_fn enc4 (w_enc world4) (data (w_x world4)) m d n p].
Proof.
split; first by reflexivity.
exact: (@find_jacobian_encodes_once _ _ _ _ _ _ _ _ _ _ enc4 dec4 world4 isT).
Defined.

Lemma find_jacobian_columns_independent_witness :
  clean_grad (w_x world4) /\
  exists J w',
    [/\ find_jacobian enc4 dec4 world4 = Some (J, w'),
        forall z g d (st st' : loop_state rat 2 1 2 2 2 1 0 0 0),
          jac_step enc4 dec4 z g d st = Some st' ->
          grad (w_x (ls_world st')) = Some 0,
        forall (d : 'I_2) n p,
          J n p d = vjp enc4 (base_graph world4) (one_code rat 2 d) n p,
        forall (d : 'I_2),
          vjp enc4 (base_graph world4) (one_code rat 2 d) =
          \sum_m jac_fn enc4 (w_enc world4) (data (w_x world4)) m d &
        forall n,
          J n = mx_of 4 2 [:: [:: 3; 0]; [:: 0; 3]; [:: 3; 3]; [:: 6; 0]]].
Proof.
split; first by reflexivity.
have [J [w' [run zero cols sums]]] :=
  @find_jacobian_columns_independent _ _ _ _ _ _ _ _ _ _ enc4 dec4 world4 isT.
exists J, w'; split=> // n; apply/matrixP => p d.
rewrite cols sums summxE scaled_arch_columns !mxE.
by case: p => [[|[|[|[|?]]]] ?] //; case: d => [[|[|?]] ?] //=; apply/eqP.
Defined.

(** C8, as stated, fails: on a batch fresh from the loader and two modules
    in training mode the call returns with the input tensor marked as
    requiring gradients and holding a gradient buffer, and with the batch
    counters of encoder and decoder advanced. *)
Lemma find_jacobian_changes_world :
  exists J w',
    [/\ find_jacobian enc1 dec1 world1 = Some (J, w'),
        w_x w' <> w_x world1,
        w_enc w' <> w_enc world1 &
        w_dec w' <> w_dec world1].
Proof.
have [J [w' [run [xr xg] en dn]]] := find_jacobian_world1.
exists J, w'; split=> //.
- by move/(congr1 (@requires_grad _ _ _)); rewrite (eqP (_ : requires_grad (w_x w') == true)) //; apply/eqP.
- by move/(congr1 (@num_batches_tracked _ _ _)); rewrite en.
- by move/(congr1 (@num_batches_tracked _ _ _)); rewrite dn.
Qed.

(** ** The claims about directions and the figure *)

Section DirectionClaims.

Variable F : realFieldType.
Variables (P Z : nat).

(** C5: for a matrix [V] returned by the decomposition, the vectors used
    for the rows of the figure are orthonormal: each has inner product 1
    with itself and 0 with every other one. *)
Theorem directions_are_orthonormal (A U : 'M[F]_(P, Z)) S (V : 'M[F]_(Z, Z)) :
  is_svd A U S V ->
  forall d d', dot (direction V d) (direction V d') = (d == d')%:R.
Proof.
case/and5P=> _ _ /eqP VtV _ _ d d'.
by rewrite dot_direction (mulmx1C VtV) mxE.
Qed.

End DirectionClaims.

Lemma directions_are_orthonormal_witness :
  is_svd A3 U3 S3 V3 /\
  forall d d', dot (direction V3 d) (direction V3 d') = (d == d')%:R.
Proof.
split; first exact: is_svd3.
exact: (directions_are_orthonormal is_svd3).
Defined.

(** C2 fails on the code: for the Jacobian [A3], whose decomposition has
    the right singular vectors e3, e1, e2 for the singular values 3, 2, 1,
    the vector used for row 0 of the figure is row 0 of [V3], that is e2,
    along which the Jacobian has gain 1, the smallest singular value; the
    most sensitive direction, column 0 of [V3], is e3, with gain 3. *)
Theorem direction_takes_row_of_V :
  [/\ is_svd A3 U3 S3 V3,
      direction V3 ord0 = row ord0 V3 /\
      direction V3 ord0 = mx_of 1 3 [:: [:: 0; 1; 0]],
      (col ord0 V3)^T = mx_of 1 3 [:: [:: 0; 0; 1]],
      A3 *m (direction V3 ord0)^T = mx_of 3 1 [:: [:: 0]; [:: 0]; [:: 1]] &
      A3 *m col ord0 V3 = mx_of 3 1 [:: [:: 3]; [:: 0]; [:: 0]]].
Proof.
split; first exact: is_svd3.
- split; first exact: directionE.
  by rewrite directionE; apply/rowP => j; rewrite !mxE /=; ord3 j.
- by apply/rowP => j; rewrite !mxE /=; ord3 j.
- rewrite directionE; apply/matrixP => i j.
  rewrite !mxE !big_ord_recl big_ord0 !mxE /=.
  by ord3 i; case: j => [[|?] ?].
- apply/matrixP => i j; rewrite !mxE !big_ord_recl big_ord0 !mxE /=.
  by ord3 i; case: j => [[|?] ?].
Qed.

Section RenderClaims.

Variable F : realFieldType.
Variables (C H W Z Kwd Kbd : nat).
Variable decoder : arch F Z (P C H W) Kwd Kbd.





End RenderClaims.







(** * Further properties of the code *)

Section FindJacobianMore.

Variable F : realFieldType.
Variables (N C H W Z Kwe Kbe Kwd Kbd : nat).
Variable encoder : arch F (P C H W) Z Kwe Kbe.
Variable decoder : arch F Z (P C H W) Kwd Kbd.

Let wld := world F N C H W Kwe Kbe Kwd Kbd.
Let lstate := loop_state F N C H W Z Kwe Kbe Kwd Kbd.




Lemma jac_loop_wgrad z g ds (st st' : lstate) :
  g_leaf g -> jac_loop encoder decoder z g ds st = Some st' ->
  wgrad (w_enc (ls_world st')) =
  if ds is [::] then wgrad (w_enc (ls_world st))
  else Some (wpending (w_enc (ls_world st)) +
             \sum_(d <- ds) wvjp encoder g (one_code F N d)).
Proof.
move=> leaf; elim: ds st => [|d ds IH] st /=; first by case=> <-.
rewrite jac_stepE // => /IH ->; case: ds {IH} => [|d' ds] /=.
  by rewrite big_seq1 /backward /accumulate /wpending /=; case: (wgrad _) => [b|]; rewrite ?add0r.
rewrite /backward /wpending /accumulate /= [in RHS]big_cons addrA.
by case: (wgrad _) => [b|]; rewrite ?add0r.
Qed.

Lemma wvjp_sum_one_code (g : graph F (P C H W) Kwe Kbe N) :
  \sum_(d <- enum 'I_Z) wvjp encoder g (one_code F N d) =
  wvjp encoder g (const_mx 1).
Proof.
rewrite big_enum /wvjp exchange_big /=; apply: eq_bigr => m _.
rewrite exchange_big /=; apply: eq_bigr => e _.
rewrite (bigD1 e) //= !mxE eqxx big1 ?addr0 // => d ne.
by rewrite mxE eq_sym (negbTE ne) scale0r.
Qed.

(** The backward passes of [find_jacobian] also reach the parameters of
    the encoder, whose gradient buffer is never reset: after the call (with
    at least one latent dimension) it holds what it held before plus the
    gradient of the sum of all entries of the latent batch. *)
Theorem find_jacobian_parameter_gradients (w : wld) :
  (0 < Z)%N ->
  exists J w',
    find_jacobian encoder decoder w = Some (J, w') /\
    wgrad (w_enc w') =
    Some (wpending (w_enc w) + wvjp encoder (base_graph w) (const_mx 1)).
Proof.
move=> Zpos; have [st run ->] := find_jacobian_run encoder decoder w.
exists (ls_jac st), (ls_world st); split=> //.
rewrite (jac_loop_wgrad (isT : g_leaf (base_graph w)) run).
rewrite -wvjp_sum_one_code /= /wpending forward_wgrad.
case E: (enum 'I_Z) => [|d ds] //.
by have := size_enum_ord Z; rewrite E /= => Z0; rewrite -Z0 in Zpos.
Qed.

Lemma jac_loop_dec_eval z g ds (st st' : lstate) :
  g_leaf g -> training (w_dec (ls_world st)) = false ->
  jac_loop encoder decoder z g ds st = Some st' ->
  w_dec (ls_world st') = w_dec (ls_world st).
Proof.
move=> leaf; elim: ds st => [|d ds IH] st /= ev; first by case=> <-.
rewrite jac_stepE // => /IH /= -> //; rewrite /forward /= ?ev //.
Qed.

(** The modules keep count of the batches their BatchNorm layers have
    seen in training mode: one call advances the encoder's count by one and
    the decoder's by [latent_dim]; a module in [eval()] mode is not counted
    on, and a decoder in [eval()] mode is left exactly as it was, as are the
    running statistics of an encoder in [eval()] mode. *)
Theorem find_jacobian_batch_counters (w : wld) :
  exists J w',
    [/\ find_jacobian encoder decoder w = Some (J, w'),
        num_batches_tracked (w_enc w') =
          (num_batches_tracked (w_enc w) + training (w_enc w))%N,
        num_batches_tracked (w_dec w') =
          (num_batches_tracked (w_dec w) + training (w_dec w) * Z)%N,
        training (w_dec w) = false -> w_dec w' = w_dec w &
        training (w_enc w) = false -> running (w_enc w') = running (w_enc w)].
Proof.
have [st run ->] := find_jacobian_run encoder decoder w.
have leaf : g_leaf (base_graph w) by [].
have [_ _ er en] := jac_loop_enc leaf run.
have [_ _ _ dn] := jac_loop_dec leaf run.
exists (ls_jac st), (ls_world st); split=> //.
- by rewrite en /= forward_tracked.
- by rewrite dn /= size_enum_ord.
- by move=> ev; rewrite (jac_loop_dec_eval leaf _ run).
- by move=> ev; rewrite er /= /forward ev.
Qed.

End FindJacobianMore.

Section LinearEncoder.

Variable F : realFieldType.
Variables (N C H W Z Kwd Kbd : nat).
Variable A : 'M[F]_(P C H W, Z).
Variable decoder : arch F Z (P C H W) Kwd Kbd.

(** For an encoder without hidden layers, [z = x A], the result of
    [find_jacobian] is the matrix [A] for every sample of the batch. *)
Theorem find_jacobian_linear (w : world F N C H W 0 0 Kwd Kbd) :
  clean_grad (w_x w) ->
  exists J w',
    find_jacobian (linear_arch A) decoder w = Some (J, w') /\
    forall n, J n = A.
Proof.
move=> clean.
have [J [w' [run cols]]] := find_jacobian_columns (linear_arch A) decoder clean.
exists J, w'; split=> // n; apply/matrixP => p d.
rewrite cols vjp_one_code summxE (bigD1 n) //= mxE eqxx mul1r big1 ?addr0 //.
by move=> m ne; rewrite mxE eq_sym (negbTE ne) mul0r.
Qed.

End LinearEncoder.

Section RenderMore.

Variable F : realFieldType.
Variables (C H W Z Kwd Kbd : nat).
Variable decoder : arch F Z (P C H W) Kwd Kbd.

Lemma render_rows_cat cr xn z v s1 s2 (st : figure F C H W * mstate F Kwd Kbd) :
  render_rows decoder cr xn z v (s1 ++ s2) st =
  if render_rows decoder cr xn z v s1 st is Some st'
  then render_rows decoder cr xn z v s2 st' else None.
Proof.
elim: s1 st => [|d s1 IH] st //=.
by case: (render_row _ _ _ _ _ _ _) => [st'|].
Qed.

Lemma render_row_fails cr xn z v k (fig : figure F C H W) (dec : mstate F Kwd Kbd) :
  nrows fig = 5%N -> ncols fig = 11%N -> k = minn 5 Z ->
  render_row decoder cr xn z v k (fig, dec) = None.
Proof.
move=> nr nc ek; rewrite /render_row /imshow nr nc /=.
case: (ltnP k 5) => // lt5; case: (imshow_accepts C H W) => //=.
rewrite insubF //.
have -> : k = Z; last by rewrite ltnn.
rewrite ek; case: (leqP 5 Z) => [/minn_idPl e5 | /ltnW /minn_idPr //].
by rewrite ek e5 ltnn in lt5.
Qed.

Lemma render_sample_index nd cr xn z v (dec : mstate F Kwd Kbd) :
  imshow_accepts C H W ->
  isSome (render_sample decoder nd cr xn z v dec) = (nd <= 5)%N && (nd <= Z)%N.
Proof.
move=> ok; case: (boolP (_ && _)) => [/andP [le5 leZ]|].
  by have [fig [-> _ _]] := render_sampleP decoder cr xn z v dec ok le5 leZ.
rewrite -leq_min -ltnNge => ltk; set k := minn 5 Z in ltk.
have k5 : (0 + k <= 5)%N by rewrite add0n geq_minl.
have kZ : (0 + k <= Z)%N by rewrite add0n geq_minr.
have [fig [run [nr nc] _ _]] :=
  @render_rowsP _ _ _ _ _ _ _ decoder cr xn z v dec k 0 (subplots F C H W 5 11)
    ok k5 kZ erefl erefl.
rewrite /render_sample -(subnKC (ltnW ltk)) iotaD render_rows_cat.
rewrite -/(dec_before decoder dec cr z v 0) run add0n -(subnSK ltk).
rewrite -[iota k _]/(k :: iota k.+1 (nd - k.+1)) render_rows_cons.
by rewrite (@render_row_fails cr xn z v k fig _ nr nc erefl).
Qed.

Lemma render_sample_succeeds_iff_aux nd cr xn z v (dec : mstate F Kwd Kbd) :
  isSome (render_sample decoder nd cr xn z v dec) =
  (nd == 0%N) || [&& imshow_accepts C H W, (nd <= 5)%N & (nd <= Z)%N].
Proof.
case ok: (imshow_accepts C H W); first by rewrite render_sample_index //; case: nd.
case: nd => [|nd] //; rewrite orbF /render_sample.
rewrite -[iota 0 nd.+1]/(0%N :: iota 1 nd) render_rows_cons.
by rewrite /render_row /imshow ok !andbF.
Qed.

(** For images with pixels, the loop over directions runs to its end
    exactly when there is no direction to draw, or when [imshow] takes the
    images and [num_directions] is at most 5, the number of rows of the
    grid, and at most [latent_dim], the number of rows of [v]; otherwise
    [imshow] refuses the image or an index is out of range, and no figure is
    produced. *)
Theorem render_sample_succeeds_iff nd cr xn z v (dec : mstate F Kwd Kbd) :
  (0 < C * H * W)%N ->
  isSome (render_sample decoder nd cr xn z v dec) =
  (nd == 0%N) || [&& imshow_accepts C H W, (nd <= 5)%N & (nd <= Z)%N].
Proof. by move=> _; exact: render_sample_succeeds_iff_aux. Qed.

Lemma dec_before_tracked (dec : mstate F Kwd Kbd) cr z v d :
  (d <= Z)%N ->
  [/\ weights (dec_before decoder dec cr z v d) = weights dec,
      training (dec_before decoder dec cr z v d) = training dec,
      num_batches_tracked (dec_before decoder dec cr z v d) =
        (num_batches_tracked dec + training dec * (2 * d))%N &
      training dec = false -> dec_before decoder dec cr z v d = dec].
Proof.
elim: d => [|d IH] leZ; first by split=> //; rewrite !muln0 addn0.
have [ew et en ev] := IH (ltnW leZ); rewrite [dec_before _ _ _ _ _ _]/=.
rewrite insubT /dec_after_row /dec_after_pos.
rewrite !forward_weights !forward_training !forward_tracked ew et en.
split=> //.
  rewrite forward_training et -!addnA; congr addn.
  by rewrite mulnS mulnDr muln2 -addnn addnC.
by move=> tr; rewrite (ev tr) !forward_eval.
Qed.

(** Rendering one sample of images that [imshow] takes runs the decoder
    twice per direction: in training mode its batch count advances by twice
    [num_directions]; its parameters are never touched, and a decoder in
    [eval()] mode comes out exactly as it went in. *)
Theorem render_sample_decoder_state nd cr xn z v (dec : mstate F Kwd Kbd) :
  displayable C H W -> (nd <= 5)%N -> (nd <= Z)%N ->
  exists fig dec',
    [/\ render_sample decoder nd cr xn z v dec = Some (fig, dec'),
        weights dec' = weights dec,
        num_batches_tracked dec' =
          (num_batches_tracked dec + training dec * (2 * nd))%N &
        training dec = false -> dec' = dec].
Proof.
move=> /andP [_ ok] le5 leZ.
have [fig [run _ _]] := render_sampleP decoder cr xn z v dec ok le5 leZ.
have [ew _ en ev] := dec_before_tracked dec cr z v leZ.
by exists fig, (dec_before decoder dec cr z v nd).
Qed.

Lemma linspace_endpoints (a b : F) n :
  [/\ linspace a b n.+2 0 ord0 = a,
      linspace a b n.+2 0 ord_max = b &
      forall i : 'I_1, linspace a b 1 0 i = a].
Proof.
have gt1 : (1 < n.+2)%N by [].
have nz : n.+1%:R != 0 :> F by rewrite pnatr_eq0.
split=> [||i]; last by rewrite /linspace mxE eqxx.
  by rewrite (linspaceE a b ord0 gt1) -[nat_of_ord ord0]/0%N mulr0n mul0r addr0.
rewrite (linspaceE a b ord_max gt1) -[nat_of_ord ord_max]/(n.+1).
by rewrite subn1 -[n.+2.-1]/(n.+1) mulrC divfK // addrC subrK.
Qed.

(** The coefficients of the negative half of a row, [linspace(-c, 0, n)],
    are the negated coefficients of the positive half, [linspace(0, c, n)],
    in reverse order: the two halves of a row are laid out symmetrically
    around the centre column. *)
Theorem linspace_mirror (c : F) n (i : 'I_n.+2) :
  linspace (- c) 0 n.+2 0 i = - linspace 0 c n.+2 0 (rev_ord i).
Proof.
have gt1 : (1 < n.+2)%N by [].
have nz : n.+1%:R != 0 :> F by rewrite pnatr_eq0.
rewrite (linspaceE (- c) 0 i gt1) (linspaceE 0 c (rev_ord i) gt1).
rewrite subn1 -[n.+2.-1]/(n.+1) sub0r opprK subr0 add0r.
rewrite -[nat_of_ord (rev_ord i)]/(n.+2 - i.+1)%N subSS.
have lei : (i <= n.+1)%N by rewrite -ltnS ltn_ord.
by rewrite natrB // mulrBl [n.+1%:R * _]mulrC divfK // opprB addrC.
Qed.

End RenderMore.

(** ** The loop over samples *)

Section ScriptFacts.

Variable F : realFieldType.
Variables (N C H W Z Kwe Kbe Kwd Kbd : nat).
Variable encoder : arch F (P C H W) Z Kwe Kbe.
Variable decoder : arch F Z (P C H W) Kwd Kbd.
Variable torch_svd :
  'M[F]_(P C H W, Z) -> 'M[F]_(P C H W, Z) * 'rV[F]_Z * 'M[F]_(Z, Z).

Let wld := world F N C H W Kwe Kbe Kwd Kbd.

Lemma count_encode_nseq k : count is_encode (nseq k EvDecode) = 0%N.
Proof. by elim: k. Qed.

Lemma script_sample_some nd cr J n (w : wld) :
  imshow_accepts C H W -> (nd <= 5)%N -> (nd <= Z)%N ->
  exists fig w',
    [/\ script_sample encoder decoder torch_svd nd cr J n w = Some (fig, w'),
        nrows fig = 5%N /\ ncols fig = 11%N,
        w_x w' = w_x w,
        count is_encode (w_log w') = (count is_encode (w_log w)).+1 &
        training (w_enc w') = training (w_enc w) /\
        num_batches_tracked (w_enc w') =
          (num_batches_tracked (w_enc w) + training (w_enc w))%N].
Proof.
move=> ok le5 leZ; rewrite /script_sample.
case: (torch_svd (J n)) => [[u s] v].
rewrite [forward encoder _ _]forwardE.
have [fig [-> sz _]] :=
  render_sampleP decoder cr (row n (data (w_x w)))
    (row n (fwd_fn encoder (w_enc w) (data (w_x w)))) v (w_dec w) ok le5 leZ.
eexists; eexists; split; [reflexivity | exact: sz | by [] | | ].
  by rewrite [w_log _]/= count_cat /= count_encode_nseq addn0 addn1.
by rewrite [w_enc _]/= forward_training forward_tracked.
Qed.

Lemma script_sample_none nd cr J n (w : wld) :
  ~~ ((nd == 0%N) || [&& imshow_accepts C H W, (nd <= 5)%N & (nd <= Z)%N]) ->
  script_sample encoder decoder torch_svd nd cr J n w = None.
Proof.
move=> bad; rewrite /script_sample.
case: (torch_svd (J n)) => [[u s] v]; rewrite [forward encoder _ _]forwardE.
have := render_sample_succeeds_iff_aux decoder nd cr (row n (data (w_x w)))
  (row n (fwd_fn encoder (w_enc w) (data (w_x w)))) v (w_dec w).
by rewrite (negbTE bad); case: (render_sample _ _ _ _ _ _ _).
Qed.

Lemma script_loop_some nd cr J ns (w : wld) :
  imshow_accepts C H W -> (nd <= 5)%N -> (nd <= Z)%N ->
  exists figs w',
    [/\ script_loop encoder decoder torch_svd nd cr J ns w = Some (figs, w'),
        size figs = size ns,
        all (fun fig => (nrows fig == 5%N) && (ncols fig == 11%N)) figs,
        w_x w' = w_x w &
        [/\ count is_encode (w_log w') =
              (count is_encode (w_log w) + size ns)%N,
            training (w_enc w') = training (w_enc w) &
            num_batches_tracked (w_enc w') =
              (num_batches_tracked (w_enc w) + training (w_enc w) * size ns)%N]].
Proof.
move=> ok le5 leZ; elim: ns w => [|n ns IH] w /=.
  by exists [::], w; split=> //; split; rewrite ?muln0 ?addn0.
have [fig [w1 [-> [nr nc] ex elog [etr etk]]]] :=
  script_sample_some cr J n w ok le5 leZ.
have [figs [w2 [-> sz al ex2 [elog2 etr2 etk2]]]] := IH w1.
exists (fig :: figs), w2; split=> //=.
- by rewrite sz.
- by rewrite nr nc !eqxx.
- by rewrite ex2.
- split; first by rewrite elog2 elog addSnnS.
    by rewrite etr2.
  by rewrite etk2 etr etk mulnS addnA.
Qed.

Lemma script_saves_figures_aux nd cr (w : wld) :
  imshow_accepts C H W -> (nd <= 5)%N -> (nd <= Z)%N ->
  exists figs w',
    [/\ script encoder decoder torch_svd nd cr w = Some (figs, w'),
        size figs = N,
        all (fun fig => (nrows fig == 5%N) && (ncols fig == 11%N)) figs,
        data (w_x w') = data (w_x w) &
        count is_encode (w_log w') = (count is_encode (w_log w) + N.+1)%N /\
        num_batches_tracked (w_enc w') =
          (num_batches_tracked (w_enc w) + training (w_enc w) * N.+1)%N].
Proof.
move=> ok le5 leZ; rewrite /script.
have [st run ->] := find_jacobian_run encoder decoder w.
have leaf : g_leaf (base_graph w) by [].
have [xd _ _] := jac_loop_x leaf run.
have [_ et _ en] := jac_loop_enc leaf run.
have elog := jac_loop_log leaf run.
have [figs [w' [-> sz al ex [ec _ ek]]]] :=
  script_loop_some cr (ls_jac st) (enum 'I_N) (ls_world st) ok le5 leZ.
exists figs, w'; split=> //.
- by rewrite sz size_enum_ord.
- by rewrite ex xd.
- split.
    rewrite ec elog size_enum_ord count_cat count_encode_loop addn0 /=.
    by rewrite -cats1 count_cat /= addn0 addn1 addSnnS.
  rewrite ek et en size_enum_ord /= forward_training forward_tracked.
  by rewrite -addnA mulnS.
Qed.

(** For images that [imshow] takes and a Jacobian with at least as many
    rows as columns (so that [torch.svd] returns a square [v]), and when
    [num_directions] fits the grid and the latent dimension, the script
    saves one figure of 5 x 11 cells per sample, runs the encoder once for
    the Jacobian and once more for every sample, as its log and the batch
    counter of its BatchNorm layers show, and leaves the values of the input
    batch as they were. *)
Theorem script_saves_one_figure_per_sample nd cr (w : wld) :
  displayable C H W -> (0 < Z <= C * H * W)%N ->
  (nd <= 5)%N -> (nd <= Z)%N ->
  exists figs w',
    [/\ script encoder decoder torch_svd nd cr w = Some (figs, w'),
        size figs = N,
        all (fun fig => (nrows fig == 5%N) && (ncols fig == 11%N)) figs,
        data (w_x w') = data (w_x w) &
        count is_encode (w_log w') = (count is_encode (w_log w) + N.+1)%N /\
        num_batches_tracked (w_enc w') =
          (num_batches_tracked (w_enc w) + training (w_enc w) * N.+1)%N].
Proof. by move=> /andP [_ ok] _; exact: script_saves_figures_aux. Qed.

(** With at least one sample of images with pixels, and a Jacobian with at
    least as many rows as columns, the script saves figures exactly when
    there is no direction to draw, or when [imshow] takes the images and
    [num_directions] is at most 5 and at most [latent_dim]: otherwise the
    first sample already fails, on the image or on an index out of
    range. *)
Theorem script_succeeds_iff nd cr (w : wld) :
  (0 < N)%N -> (0 < Z <= C * H * W)%N ->
  isSome (script encoder decoder torch_svd nd cr w) =
  (nd == 0%N) || [&& imshow_accepts C H W, (nd <= 5)%N & (nd <= Z)%N].
Proof.
move=> Npos _; case: (boolP (_ || _)) => [good|bad]; last first.
  rewrite /script; have [st run ->] := find_jacobian_run encoder decoder w.
  case E: (enum 'I_N) => [|n ns].
    by have := size_enum_ord N; rewrite E /= => N0; rewrite -N0 in Npos.
  by rewrite /= script_sample_none.
rewrite /script; have [st run ->] := find_jacobian_run encoder decoder w.
elim: (enum 'I_N) (ls_world st) => [|n ns IH] w1 //=.
have := render_sample_succeeds_iff_aux decoder nd cr (row n (data (w_x w1)))
  (row n (fwd_fn encoder (w_enc w1) (data (w_x w1))))
  (torch_svd (ls_jac st n)).2 (w_dec w1).
rewrite good /script_sample; case: (torch_svd _) => [[u s] v] /=.
case: (render_sample _ _ _ _ _ _ _) => [[fig dec1]|] // _.
by have := IH (World (w_x w1) (forward encoder (w_enc w1) (data (w_x w1))).2
                 dec1 (w_log w1 ++ EvEncode :: nseq (2 * nd) EvDecode));
   case: (script_loop _ _ _ _ _ _ _ _) => [[figs w2]|].
Qed.

End ScriptFacts.

(** * Shapes through the networks of autoencoder.py *)

Section ShapeFacts.

Local Open Scope nat_scope.

Lemma batch_not_single b hw : 0 < b -> 1 < hw -> (b * hw == 1) = false.
Proof.
move=> b0 hw1; apply/negbTE; rewrite neq_ltn; apply/orP; right.
by apply: leq_trans hw1 _; rewrite leq_pmull.
Qed.

Lemma view_flatten b rest :
  0 < b -> flatten_batch (b :: rest) = Some [:: b; numel rest].
Proof.
move=> b0; rewrite /flatten_batch /view /= muln1 -lt0n b0 /numel /=.
by rewrite dvdn_mulr // mulKn.
Qed.

Lemma run_seq_step tr l ls sh sh' :
  apply_layer tr l sh = Some sh' -> run_seq tr (l :: ls) sh = run_seq tr ls sh'.
Proof. by move=> /= ->. Qed.

Lemma conv_ok tr cin cout k s p b h w :
  0 < cin -> 0 < cout -> conv_dim h k s p -> conv_dim w k s p ->
  apply_layer tr (Conv2d cin cout k s p) [:: b; cin; h; w] =
  Some [:: b; cout; odflt 0 (conv_dim h k s p); odflt 0 (conv_dim w k s p)].
Proof.
move=> ci co; rewrite /apply_layer /conv_shape ci co eqxx.
by case: (conv_dim h k s p) => // h' _; case: (conv_dim w k s p).
Qed.

Lemma convT_ok tr cin cout k s p b h w :
  0 < cin -> 0 < cout -> convT_dim h k s p -> convT_dim w k s p ->
  apply_layer tr (ConvTranspose2d cin cout k s p) [:: b; cin; h; w] =
  Some [:: b; cout; odflt 0 (convT_dim h k s p); odflt 0 (convT_dim w k s p)].
Proof.
move=> ci co; rewrite /apply_layer /conv_shape ci co eqxx.
by case: (convT_dim h k s p) => // h' _; case: (convT_dim w k s p).
Qed.

Lemma bn_ok tr n b h w :
  0 < b -> 1 < h * w ->
  apply_layer tr (BatchNorm2d n) [:: b; n; h; w] = Some [:: b; n; h; w].
Proof. by move=> b0 hw; rewrite /= eqxx batch_not_single // andbF. Qed.

Lemma linear_ok tr fin fout b :
  apply_layer tr (Linear fin fout) [:: b; fin] = Some [:: b; fout].
Proof. by rewrite /= eqxx. Qed.

End ShapeFacts.

Ltac layer_ok :=
  first [ exact: linear_ok
        | apply: bn_ok => //
        | apply: conv_ok => //
        | apply: convT_ok => //
        | reflexivity ].

Ltac run_layer := erewrite run_seq_step; [ | layer_ok ].

Section EncoderShapes.

Local Open Scope nat_scope.

Lemma ConvEncoder_main_32 tr z c flag nf B main :
  0 < B -> 0 < c -> 0 < nf ->
  ce_main (ConvEncoder_init z c 32 flag nf) = Some main ->
  run_seq tr main [:: B; c; 32; 32] = Some [:: B; nf; 2; 2].
Proof.
move=> B0 c0 nf0 [<-]; have nf2 : 0 < nf * 2 by rewrite muln_gt0 nf0.
by do 17! run_layer.
Qed.

Lemma ConvEncoder_main_64 tr z c flag nf B main :
  0 < B -> 0 < c -> 3 < nf ->
  ce_main (ConvEncoder_init z c 64 flag nf) = Some main ->
  run_seq tr main [:: B; c; 64; 64] = Some [:: B; nf; 2; 2].
Proof.
move=> B0 c0 nf4 [<-].
have nf0 : 0 < nf by apply: leq_trans nf4.
have nf2 : 0 < nf * 2 by rewrite muln_gt0 nf0.
have nfq : 0 < nf %/ 4 by rewrite divn_gt0.
have nfh : 0 < nf %/ 2 by rewrite divn_gt0 //; apply: leq_trans nf4.
by do 17! run_layer.
Qed.

Lemma normalize_rank2 (flag : bool) b z :
  (if flag then normalize_shape [:: b; z] else Some [:: b; z]) = Some [:: b; z].
Proof. by case: flag. Qed.

Lemma numel3 a b c : numel [:: a; b; c] = a * b * c.
Proof. by rewrite /numel /= muln1 mulnA. Qed.

Lemma ConvEncoder_forward_main tr m main fc x b rest z :
  (ce_img_size m == 32) || (ce_img_size m == 64) ->
  ce_main m = Some main -> ce_fc m = Some fc ->
  run_seq tr main x = Some (b :: rest) -> 0 < b ->
  apply_layer tr fc [:: b; numel rest] = Some [:: b; z] ->
  ConvEncoder_forward tr m x = Some [:: b; z].
Proof.
rewrite /ConvEncoder_forward => -> -> -> -> b0; rewrite view_flatten // => ->.
exact: normalize_rank2.
Qed.

Lemma ConvEncoder_forward_32 tr z c flag nf B :
  0 < B -> 0 < c -> 0 < nf ->
  ConvEncoder_forward tr (ConvEncoder_init z c 32 flag nf) [:: B; c; 32; 32] =
  Some [:: B; z].
Proof.
move=> B0 c0 nf0.
apply: (@ConvEncoder_forward_main tr _ _ (Linear (nf * 2 * 2) z) _ B [:: nf; 2; 2]);
  [ by [] | reflexivity | reflexivity
  | exact: (ConvEncoder_main_32 tr B0 c0 nf0 (erefl _)) | by []
  | by rewrite numel3 linear_ok ].
Qed.

Lemma ConvEncoder_forward_64 tr z c flag nf B :
  0 < B -> 0 < c -> 3 < nf ->
  ConvEncoder_forward tr (ConvEncoder_init z c 64 flag nf) [:: B; c; 64; 64] =
  Some [:: B; z].
Proof.
move=> B0 c0 nf4.
apply: (@ConvEncoder_forward_main tr _ _ (Linear (nf * 2 * 2) z) _ B [:: nf; 2; 2]);
  [ by [] | reflexivity | reflexivity
  | exact: (ConvEncoder_main_64 tr B0 c0 nf4 (erefl _)) | by []
  | by rewrite numel3 linear_ok ].
Qed.

Lemma conv_some tr cin cout k s p b h w h' w' :
  0 < cin -> 0 < cout ->
  conv_dim h k s p = Some h' -> conv_dim w k s p = Some w' ->
  apply_layer tr (Conv2d cin cout k s p) [:: b; cin; h; w] =
  Some [:: b; cout; h'; w'].
Proof. by move=> ci co; rewrite /apply_layer /conv_shape ci co eqxx => -> ->. Qed.

Lemma bn_some tr n b h w :
  ~~ (tr && (b * (h * w) == 1)) ->
  apply_layer tr (BatchNorm2d n) [:: b; n; h; w] = Some [:: b; n; h; w].
Proof. by rewrite /= eqxx => ->. Qed.

Lemma pad_some tr l r t bt b c h w :
  apply_layer tr (ZeroPad2d l r t bt) [:: b; c; h; w] =
  Some [:: b; c; h + t + bt; w + l + r].
Proof. by []. Qed.

Lemma conv_dim_half h : 0 < h -> conv_dim (2 * h) 4 2 1 = Some h.
Proof.
case: h => // h _; rewrite /conv_dim.
have -> : 2 * h.+1 + 2 * 1 = 2 * h + 4 by rewrite mulnS muln1 [2 + _]addnC -addnA.
by rewrite leq_addl addnK mulKn.
Qed.

Lemma conv_dim_pad q : 0 < q -> conv_dim (q + 1 + 2) 4 1 0 = Some q.
Proof.
case: q => // q _; rewrite /conv_dim muln0 addn0.
have -> : q.+1 + 1 + 2 = q + 4 by rewrite -addnA addSnnS.
by rewrite leq_addl addnK divn1.
Qed.

Lemma ConvEncoder_forward_else tr m model fc x b rest z :
  ~~ ((ce_img_size m == 32) || (ce_img_size m == 64)) ->
  ce_model_enc m = Some model -> ce_fc_mean m = Some fc ->
  run_seq tr model x = Some (b :: rest) -> 0 < b ->
  apply_layer tr fc [:: b; numel rest] = Some [:: b; z] ->
  ConvEncoder_forward tr m x = Some [:: b; z].
Proof.
rewrite /ConvEncoder_forward => /negbTE -> -> -> -> b0.
rewrite view_flatten // => ->; exact: normalize_rank2.
Qed.

Lemma model_enc_quarter tr c nf B q :
  0 < B -> 0 < c -> 0 < nf -> 0 < q -> ~~ (tr && (B * (q * q) == 1)) ->
  run_seq tr
    [:: Conv2d c nf 4 2 1; BatchNorm2d nf; ReLU;
        Conv2d nf nf 4 2 1; BatchNorm2d nf; ReLU;
        ZeroPad2d 1 2 1 2;
        Conv2d nf nf 4 1 0; BatchNorm2d nf; ReLU]
    [:: B; c; 4 * q; 4 * q] = Some [:: B; nf; q; q].
Proof.
move=> B0 c0 nf0 q0 bnq.
have q2 : 0 < 2 * q by rewrite muln_gt0.
have e4 : 4 * q = 2 * (2 * q) by rewrite mulnA.
rewrite [in X in run_seq _ _ X]e4.
have bn1 : 1 < 2 * q * (2 * q).
  by rewrite -mulnA (@leq_trans (2 * 1)) // leq_mul2l /= muln_gt0 q0 q2.
rewrite (run_seq_step _ (@conv_some tr c nf _ _ _ B _ _ _ _ c0 nf0
                           (conv_dim_half q2) (conv_dim_half q2))).
rewrite (run_seq_step _ (@bn_ok tr nf B _ _ B0 bn1)).
rewrite (run_seq_step _ (erefl _ : apply_layer tr ReLU _ = Some _)).
rewrite (run_seq_step _ (@conv_some tr nf nf _ _ _ B _ _ _ _ nf0 nf0
                           (conv_dim_half q0) (conv_dim_half q0))).
rewrite (run_seq_step _ (@bn_some tr nf B q q bnq)).
rewrite (run_seq_step _ (erefl _ : apply_layer tr ReLU _ = Some _)).
rewrite (run_seq_step _ (pad_some tr 1 2 1 2 B nf q q)).
rewrite (run_seq_step _ (@conv_some tr nf nf _ _ _ B _ _ _ _ nf0 nf0
                           (conv_dim_pad q0) (conv_dim_pad q0))).
rewrite (run_seq_step _ (@bn_some tr nf B q q bnq)).
by rewrite (run_seq_step _ (erefl _ : apply_layer tr ReLU _ = Some _)).
Qed.

Lemma fc_mean_features nf q : nf * (4 * q) * (4 * q) %/ 16 = nf * q * q.
Proof. by rewrite -mulnA mulnACA [4 * 4 * _]mulnC mulnA mulnK // mulnA. Qed.

Lemma ConvEncoder_forward_quarter tr z c flag nf B q :
  0 < B -> 0 < c -> 0 < nf -> 0 < q -> (4 * q != 32) && (4 * q != 64) ->
  ~~ (tr && (B * (q * q) == 1)) ->
  ConvEncoder_forward tr (ConvEncoder_init z c (4 * q) flag nf)
    [:: B; c; 4 * q; 4 * q] = Some [:: B; z].
Proof.
move=> B0 c0 nf0 q0 /andP [/negbTE n32 /negbTE n64] bnq.
have init : ConvEncoder_init z c (4 * q) flag nf =
  ConvEncoder (4 * q) flag None None
    (Some [:: Conv2d c nf 4 2 1; BatchNorm2d nf; ReLU;
              Conv2d nf nf 4 2 1; BatchNorm2d nf; ReLU;
              ZeroPad2d 1 2 1 2;
              Conv2d nf nf 4 1 0; BatchNorm2d nf; ReLU])
    (Some (Linear (nf * (4 * q) * (4 * q) %/ 16) z)).
  by rewrite /ConvEncoder_init n32 n64.
rewrite init.
apply: (@ConvEncoder_forward_else tr _ _ _ _ B [:: nf; q; q]);
  [ by rewrite /= n32 n64 | reflexivity | reflexivity
  | exact: model_enc_quarter | by []
  | by rewrite fc_mean_features numel3 linear_ok ].
Qed.

End EncoderShapes.

Section DecoderShapes.

Local Open Scope nat_scope.

Lemma view_4d b c h w k :
  k = c * h * w ->
  view [:: Some b; Some c; Some h; Some w] [:: b; k] = Some [:: b; c; h; w].
Proof.
by move=> ->; rewrite /view /= /numel /= !muln1 !mulnA eqxx.
Qed.

Lemma ConvDecoder_forward_main tr m i4 proj main b zd k out :
  (cd_img_size m == 32) || (cd_img_size m == 64) ->
  cd_img_4 m = Some i4 -> cd_proj m = Some proj -> cd_main m = Some main ->
  run_seq tr proj [:: b; zd] = Some [:: b; k] ->
  k = cd_num_filters m * i4 * i4 ->
  run_seq tr main [:: b; cd_num_filters m; i4; i4] = Some out ->
  ConvDecoder_forward tr m [:: b; zd] = Some out.
Proof.
rewrite /ConvDecoder_forward => -> -> -> -> -> ek.
by rewrite (view_4d _ ek).
Qed.

Lemma ConvDecoder_forward_else tr m i4 fc model b zd k out :
  ~~ ((cd_img_size m == 32) || (cd_img_size m == 64)) ->
  cd_img_4 m = Some i4 -> cd_fc m = Some fc -> cd_model m = Some model ->
  run_seq tr fc [:: b; zd] = Some [:: b; k] ->
  k = cd_num_filters m * i4 * i4 ->
  run_seq tr model [:: b; cd_num_filters m; i4; i4] = Some out ->
  ConvDecoder_forward tr m [:: b; zd] = Some out.
Proof.
rewrite /ConvDecoder_forward => /negbTE -> -> -> -> -> ek.
by rewrite (view_4d _ ek).
Qed.

Lemma ConvDecoder_forward_32 tr z c nf B m :
  0 < B -> 0 < c -> 0 < nf -> ConvDecoder_init z c 32 nf = Some m ->
  ConvDecoder_forward tr m [:: B; z] = Some [:: B; c; 32; 32].
Proof.
move=> B0 c0 nf0 [<-]; have nf2 : 0 < nf * 2 by rewrite muln_gt0 nf0.
apply: (@ConvDecoder_forward_main tr _ 9 _ _ B z (nf * 9 * 9));
  [ by [] | reflexivity | reflexivity | reflexivity | | by [] | ].
- by do 2! run_layer.
- by rewrite [cd_num_filters _]/=; do 17! run_layer.
Qed.

Lemma ConvDecoder_forward_64 tr z c nf B m :
  0 < B -> 0 < c -> 0 < nf -> ConvDecoder_init z c 64 nf = Some m ->
  ConvDecoder_forward tr m [:: B; z] = Some [:: B; c; 64; 64].
Proof.
move=> B0 c0 nf0 [<-]; have nf2 : 0 < nf * 2 by rewrite muln_gt0 nf0.
apply: (@ConvDecoder_forward_main tr _ 25 _ _ B z (nf * 25 * 25));
  [ by [] | reflexivity | reflexivity | reflexivity | | by [] | ].
- by do 2! run_layer.
- by rewrite [cd_num_filters _]/=; do 17! run_layer.
Qed.

Lemma ConvDecoder_forward_28 tr z c nf B m :
  0 < B -> 0 < c -> 0 < nf -> ConvDecoder_init z c 28 nf = Some m ->
  ConvDecoder_forward tr m [:: B; z] = Some [:: B; c; 28; 28].
Proof.
move=> B0 c0 nf0 [<-].
apply: (@ConvDecoder_forward_else tr _ 7 _ _ B z (7 * 7 * nf));
  [ by [] | reflexivity | reflexivity | reflexivity | | by rewrite /= mulnC mulnA | ].
- by do 2! run_layer.
- by rewrite [cd_num_filters _]/=; do 8! run_layer.
Qed.

End DecoderShapes.

Section BetaVAEShapes.

Local Open Scope nat_scope.

Lemma view_rows tr b h w :
  apply_layer tr (View [:: None; Some (256 * 1 * 1)]) [:: b; 256; h; w] =
  Some [:: b * (h * w); 256].
Proof.
rewrite /= /view /= /numel /= !muln1.
have -> : b * (256 * (h * w)) = b * (h * w) * 256 by rewrite [256 * _]mulnC mulnA.
by rewrite dvdn_mull // mulnK.
Qed.

Lemma view_unrows tr b :
  apply_layer tr (View [:: None; Some 256; Some 1; Some 1]) [:: b; 256] =
  Some [:: b; 256; 1; 1].
Proof. by rewrite /= /view /= /numel /= !muln1 dvdn_mull // mulnK. Qed.

Lemma split_latent b z :
  [/\ slice_to z [:: b; z * 2] = Some [:: b; z],
      slice_from z [:: b; z * 2] = Some [:: b; z] &
      reparameterize_shape [:: b; z] [:: b; z] = Some [:: b; z]].
Proof.
split; rewrite /slice_to /slice_from ?muln2 -?addnn.
- by rewrite (minn_idPl (leq_addr _ _)).
- by rewrite addnK.
- by rewrite /reparameterize_shape /broadcast /= !eqxx.
Qed.

Lemma BetaVAE_forward_run tr m x b z out :
  run_seq tr (bv_encoder m) x = Some [:: b; bv_z_dim m * 2] ->
  z = bv_z_dim m ->
  run_seq tr (bv_decoder m) [:: b; z] = Some out ->
  BetaVAE_forward tr m x = Some (out, [:: b; z], [:: b; z]).
Proof.
move=> enc -> dec; rewrite /BetaVAE_forward enc.
by have [-> -> ->] := split_latent b (bv_z_dim m); rewrite dec.
Qed.

Lemma BetaVAE_decoder_64 tr z nc b :
  0 < nc ->
  run_seq tr (bv_decoder (BetaVAE_init z nc 64)) [:: b; z] =
  Some [:: b; nc; 64; 64].
Proof.
move=> nc0; rewrite [bv_decoder _]/=; run_layer.
rewrite (run_seq_step _ (view_unrows tr b)).
by do 10! run_layer.
Qed.

Lemma BetaVAE_decoder_other tr z nc img b :
  0 < nc -> img != 64 ->
  run_seq tr (bv_decoder (BetaVAE_init z nc img)) [:: b; z] =
  Some [:: b; nc; 28; 28].
Proof.
move=> nc0 /negbTE n64; rewrite /BetaVAE_init n64 [bv_decoder _]/=; run_layer.
rewrite (run_seq_step _ (view_unrows tr b)).
by do 8! run_layer.
Qed.

Lemma BetaVAE_forward_64 tr z nc B :
  0 < nc ->
  BetaVAE_forward tr (BetaVAE_init z nc 64) [:: B; nc; 64; 64] =
  Some ([:: B; nc; 64; 64], [:: B; z], [:: B; z]).
Proof.
move=> nc0; apply: BetaVAE_forward_run; [ | by [] | exact: BetaVAE_decoder_64 ].
rewrite [bv_encoder _]/=; do 10! run_layer.
rewrite (run_seq_step _ (view_rows tr _ _ _)) -[odflt _ _ * _]/(1 * 1) !muln1.
by run_layer.
Qed.

Lemma BetaVAE_forward_other tr z nc img B :
  0 < nc -> img != 64 ->
  BetaVAE_forward tr (BetaVAE_init z nc img) [:: B; nc; 28; 28] =
    Some ([:: B; nc; 28; 28], [:: B; z], [:: B; z]) /\
  BetaVAE_forward tr (BetaVAE_init z nc img) [:: B; nc; 32; 32] =
    Some ([:: B * 4; nc; 28; 28], [:: B * 4; z], [:: B * 4; z]).
Proof.
move=> nc0 n64; have e := negbTE n64; split.
- apply: BetaVAE_forward_run; [ | by rewrite /BetaVAE_init e | exact: BetaVAE_decoder_other ].
  rewrite /BetaVAE_init e [bv_encoder _]/= [bv_z_dim _]/=; do 8! run_layer.
  rewrite (run_seq_step _ (view_rows tr _ _ _)) -[odflt _ _ * _]/(1 * 1) !muln1.
  by run_layer.
- apply: BetaVAE_forward_run; [ | by rewrite /BetaVAE_init e | exact: BetaVAE_decoder_other ].
  rewrite /BetaVAE_init e [bv_encoder _]/= [bv_z_dim _]/=; do 8! run_layer.
  rewrite (run_seq_step _ (view_rows tr _ _ _)) -[odflt _ _ * _]/(2 * 2).
  by run_layer.
Qed.

End BetaVAEShapes.

(** ** Shapes: what the networks accept and return *)

Section ShapeTheorems.

Local Open Scope nat_scope.

(** A [ConvEncoder] built for images of size 32 or 64, with input
    channels and with enough filters for every convolution to have output
    channels (at least one for size 32; at least four for size 64, whose
    first convolution has [num_filters // 4] of them), maps a non-empty
    batch of such images with [c_dim] channels to a batch of latent codes of
    dimension [z_dim]: the flattened output of its convolutions has exactly
    the [in_features] of its linear layer. *)
Theorem ConvEncoder_forward_shape tr z c flag nf B img :
  0 < B -> 0 < c -> (img == 32) && (0 < nf) || (img == 64) && (3 < nf) ->
  ConvEncoder_forward tr (ConvEncoder_init z c img flag nf) [:: B; c; img; img] =
  Some [:: B; z].
Proof.
move=> B0 c0 /orP [] /andP [/eqP -> nf0];
  [exact: ConvEncoder_forward_32 | exact: ConvEncoder_forward_64].
Qed.

(** With fewer than four filters the encoder for size 64 can be built but
    refuses every batch: its first convolution has no output channel. *)
Lemma ConvEncoder_64_few_filters tr z c flag nf x :
  nf < 4 ->
  ConvEncoder_forward tr (ConvEncoder_init z c 64 flag nf) x = None.
Proof.
move=> lt4; rewrite /ConvEncoder_forward /= /conv_shape.
have -> : (0 < nf %/ 4) = false by rewrite divn_gt0 // leqNgt lt4.
by rewrite andbF.
Qed.

(** For every other image size that is a multiple of four, the third
    architecture of [ConvEncoder], built with input channels and filters,
    also maps a non-empty batch to latent codes of dimension [z_dim],
    provided that in training mode the batch has more than one value per
    channel after the second convolution. *)
Theorem ConvEncoder_forward_shape_other tr z c flag nf B q :
  0 < B -> 0 < c -> 0 < nf -> 0 < q -> (4 * q != 32) && (4 * q != 64) ->
  ~~ (tr && (B * (q * q) == 1)) ->
  ConvEncoder_forward tr (ConvEncoder_init z c (4 * q) flag nf)
    [:: B; c; 4 * q; 4 * q] = Some [:: B; z].
Proof. exact: ConvEncoder_forward_quarter. Qed.

Lemma conv_shape_rejects dim cin cout b c h w :
  c != cin -> conv_shape dim cin cout [:: b; c; h; w] = None.
Proof. by move=> /negbTE ne; rewrite /conv_shape ne; case: (_ && _). Qed.

(** A batch whose images do not have [c_dim] channels is refused by the
    first convolution, whatever the image size the encoder was built for. *)
Theorem ConvEncoder_rejects_channels tr z c flag nf img B c' h w :
  c' != c ->
  ConvEncoder_forward tr (ConvEncoder_init z c img flag nf) [:: B; c'; h; w] =
  None.
Proof.
move=> ne; rewrite /ConvEncoder_forward /ConvEncoder_init.
case: (altP (img =P 32)) => [->|/negbTE n32].
  by rewrite /= conv_shape_rejects.
case: (altP (img =P 64)) => [->|/negbTE n64].
  by rewrite /= conv_shape_rejects.
by rewrite /= n32 n64 /= conv_shape_rejects.
Qed.

Lemma ConvDecoder_init_cases z c img nf m :
  ConvDecoder_init z c img nf = Some m -> [\/ img = 28, img = 32 | img = 64].
Proof.
rewrite /ConvDecoder_init /ConvDecoder_img_4.
case: (altP (img =P 28)) => [-> _|_]; first by constructor 1.
case: (altP (img =P 32)) => [-> _|_]; first by constructor 2.
by case: (altP (img =P 64)) => [-> _|_] //; constructor 3.
Qed.

(** The constructor of [ConvDecoder] succeeds for the image sizes 28, 32
    and 64 and for no other: only for these is [img_4] set before it is
    read. *)
Theorem ConvDecoder_init_defined z c img nf :
  isSome (ConvDecoder_init z c img nf) = (img \in [:: 28; 32; 64]).
Proof.
rewrite !inE /ConvDecoder_init /ConvDecoder_img_4.
case: (altP (img =P 28)) => [->|_] //.
case: (altP (img =P 32)) => [->|_] //.
by case: (altP (img =P 64)) => [->|_].
Qed.

Lemma ConvDecoder_forward_sizes tr z c nf B img :
  0 < B -> 0 < c -> 0 < nf -> img \in [:: 28; 32; 64] ->
  exists2 m, ConvDecoder_init z c img nf = Some m &
             ConvDecoder_forward tr m [:: B; z] = Some [:: B; c; img; img].
Proof.
move=> B0 c0 nf0; rewrite !inE => /or3P [] /eqP ->; eexists; try reflexivity.
- exact: (ConvDecoder_forward_28 tr B0 c0 nf0).
- exact: (ConvDecoder_forward_32 tr B0 c0 nf0).
- exact: (ConvDecoder_forward_64 tr B0 c0 nf0).
Qed.

(** A [ConvDecoder] built for images of size 28, 32 or 64, with output
    channels and filters, maps a non-empty batch of latent codes of
    dimension [z_dim] to a batch of images of that size with [c_dim]
    channels. *)
Theorem ConvDecoder_forward_shape tr z c nf B img :
  0 < B -> 0 < c -> 0 < nf -> img \in [:: 28; 32; 64] ->
  exists2 m, ConvDecoder_init z c img nf = Some m &
             ConvDecoder_forward tr m [:: B; z] = Some [:: B; c; img; img].
Proof. exact: ConvDecoder_forward_sizes. Qed.

(** A batch of latent codes of another dimension than [z_dim] is refused
    by the first linear layer of the decoder. *)
Theorem ConvDecoder_rejects_latent tr z c nf img B z' :
  img \in [:: 28; 32; 64] -> z' != z ->
  exists2 m, ConvDecoder_init z c img nf = Some m &
             ConvDecoder_forward tr m [:: B; z'] = None.
Proof.
rewrite !inE => sz /negbTE ne.
by case/or3P: sz => /eqP ->; eexists; try reflexivity;
  rewrite /ConvDecoder_forward /= ne.
Qed.

Lemma networks_fit tr z c nf B img :
  0 < B -> 0 < c -> (if img == 64 then 3 else 0) < nf ->
  img \in [:: 28; 32; 64] ->
  ConvEncoder_forward tr (ConvEncoder_init z c img false nf) [:: B; c; img; img] =
  Some [:: B; z].
Proof.
move=> B0 c0 nfi; rewrite !inE => /or3P [] /eqP e; rewrite {img}e in nfi *.
- apply: (@ConvEncoder_forward_quarter tr z c false nf B 7) => //.
  by rewrite batch_not_single // andbF.
- exact: ConvEncoder_forward_32.
- exact: ConvEncoder_forward_64.
Qed.

Lemma filters_pos img nf : (if img == 64 then 3 else 0) < nf -> 0 < nf.
Proof. by case: ifP => _ // /ltnW /ltnW /ltnW. Qed.

(** Encoder and decoder built with the same arguments for an image size
    of 28, 32 or 64, with image channels and with enough filters (at least
    one; at least four for size 64), fit together: decoding the codes of a
    non-empty batch of images gives a batch of the shape of the input. *)
Theorem autoencoder_shape_round_trip tr z c nf B img :
  0 < B -> 0 < c -> (if img == 64 then 3 else 0) < nf ->
  img \in [:: 28; 32; 64] ->
  exists2 m, ConvDecoder_init z c img nf = Some m &
    obind (ConvDecoder_forward tr m)
      (ConvEncoder_forward tr (ConvEncoder_init z c img false nf)
         [:: B; c; img; img]) =
    Some [:: B; c; img; img].
Proof.
move=> B0 c0 nfi sz.
have [m init fwd] := ConvDecoder_forward_sizes tr z B0 c0 (filters_pos nfi) sz.
by exists m => //; rewrite networks_fit.
Qed.

(** [BetaVAE] built for images of size 64 with [nc] channels returns, for
    a non-empty batch of such images, a reconstruction of the shape of the
    input and two batches [mu] and [logvar] of dimension [z_dim]. *)
Theorem BetaVAE_forward_shape_64 tr z nc B :
  0 < B -> 0 < nc ->
  BetaVAE_forward tr (BetaVAE_init z nc 64) [:: B; nc; 64; 64] =
  Some ([:: B; nc; 64; 64], [:: B; z], [:: B; z]).
Proof. by move=> _; exact: BetaVAE_forward_64. Qed.

(** [BetaVAE] built for any other size has the architecture for images of
    size 28, whatever the size asked for: on a non-empty batch of 28 x 28
    images with [nc] channels it returns a
    reconstruction of the shape of the input, and on 32 x 32 images it does
    not fail but returns four times as many reconstructions, of size
    28 x 28, because its [View] layer folds the 2 x 2 positions left by the
    convolutions into the batch axis. *)
Theorem BetaVAE_forward_shape_other tr z nc img B :
  0 < B -> 0 < nc -> img != 64 ->
  BetaVAE_forward tr (BetaVAE_init z nc img) [:: B; nc; 28; 28] =
    Some ([:: B; nc; 28; 28], [:: B; z], [:: B; z]) /\
  BetaVAE_forward tr (BetaVAE_init z nc img) [:: B; nc; 32; 32] =
    Some ([:: B * 4; nc; 28; 28], [:: B * 4; z], [:: B * 4; z]).
Proof. by move=> _; exact: BetaVAE_forward_other. Qed.

End ShapeTheorems.

Section ScriptTheorems.

Local Open Scope nat_scope.

(** The chain of tests on [dataset] succeeds for exactly seven names;
    ['svhn'], which the help text of the option offers, is not one of
    them. *)
Theorem dataset_config_defined d :
  isSome (dataset_config d) = has (String.eqb d) datasets.
Proof.
rewrite /dataset_config /datasets /=.
do 4! [case: (String.eqb d _) => //=].
case E: (String.eqb d "svhn").
  by move/String.eqb_eq: E => ->.
by do 3! [case: (String.eqb d _) => //=].
Qed.

Lemma dataset_config_sizes d ch img feat :
  dataset_config d = Some (ch, img, feat) ->
  [/\ img \in [:: 28; 32; 64], 0 < ch & 3 < feat].
Proof.
rewrite /dataset_config.
by do 8! [case: (String.eqb d _); first by (move=> [<- <- <-] || move=> //)].
Qed.

(** The images of every dataset the script accepts are images that
    [imshow] takes: one channel of 28 x 28 pixels, or three channels of
    32 x 32 or 64 x 64 pixels. *)
Lemma dataset_images_displayable d ch img feat :
  dataset_config d = Some (ch, img, feat) -> displayable ch img img.
Proof.
rewrite /dataset_config.
by do 8! [case: (String.eqb d _); first by (move=> [<- <- _] || move=> //)].
Qed.

(** For every dataset the script accepts, the networks it builds fit the
    shapes it runs them on: the encoder maps the batch of [num_samples]
    images to [num_samples] latent codes of dimension [latent_dim], and the
    decoder maps those codes, and the batches of five latent points of the
    rendering loop, to images of the shape of the input. *)
Theorem script_networks_fit tr d latent_dim ch img feat :
  dataset_config d = Some (ch, img, feat) ->
  exists2 dec, ConvDecoder_init latent_dim ch img feat = Some dec &
    [/\ ConvEncoder_forward tr (ConvEncoder_init latent_dim ch img false feat)
          [:: num_samples; ch; img; img] = Some [:: num_samples; latent_dim],
        ConvDecoder_forward tr dec [:: num_samples; latent_dim] =
          Some [:: num_samples; ch; img; img] &
        ConvDecoder_forward tr dec [:: 5; latent_dim] = Some [:: 5; ch; img; img]].
Proof.
move=> /dataset_config_sizes [sz ch0 feat4].
have feat0 : 0 < feat by apply: leq_trans feat4.
have feati : (if img == 64 then 3 else 0) < feat by case: ifP.
have [m init fwd] :=
  @ConvDecoder_forward_sizes tr latent_dim ch feat num_samples img isT ch0 feat0 sz.
have [m' init' fwd'] :=
  @ConvDecoder_forward_sizes tr latent_dim ch feat 5 img isT ch0 feat0 sz.
have em : m' = m by move: init'; rewrite init => -[].
by exists m => //; split=> //; [exact: networks_fit | rewrite -em].
Qed.

End ScriptTheorems.

Section OldShapes.

Local Open Scope nat_scope.

Lemma ConvEncoder_old_forward_32 tr z c flag nf B :
  0 < B -> 0 < c -> 0 < nf ->
  ConvEncoder_old_forward tr (ConvEncoder_old_init z c 32 flag nf)
    [:: B; c; 32; 32] = Some [:: B; z].
Proof.
move=> B0 c0 nf0; have nf2 : 0 < nf * 2 by rewrite muln_gt0 nf0.
rewrite /ConvEncoder_old_forward.
have -> : ce_img_size (ConvEncoder_old_init z c 32 flag nf) == 32 by [].
have -> : ce_main (ConvEncoder_old_init z c 32 flag nf) =
          Some (odflt [::] (ce_main (ConvEncoder_old_init z c 32 flag nf))) by [].
have -> : run_seq tr (odflt [::] (ce_main (ConvEncoder_old_init z c 32 flag nf)))
            [:: B; c; 32; 32] = Some [:: B; nf; 2; 2].
  by rewrite [odflt _ _]/=; do 22! run_layer.
rewrite view_flatten // numel3.
have -> : ce_fc (ConvEncoder_old_init z c 32 flag nf) = Some (Linear (nf * 2 * 2) z) by [].
by rewrite linear_ok; exact: normalize_rank2.
Qed.

Lemma ConvEncoder_old_forward_quarter tr z c flag nf B q :
  0 < B -> 0 < c -> 0 < nf -> 0 < q -> 4 * q != 32 -> ~~ (tr && (B * (q * q) == 1)) ->
  ConvEncoder_old_forward tr (ConvEncoder_old_init z c (4 * q) flag nf)
    [:: B; c; 4 * q; 4 * q] = Some [:: B; z].
Proof.
move=> B0 c0 nf0 q0 /negbTE n32 bnq.
rewrite /ConvEncoder_old_forward /ConvEncoder_old_init n32.
rewrite [ce_img_size _]/= n32 [ce_model_enc _]/= [ce_fc_mean _]/=.
rewrite [ce_norm_ae_flag _]/=; lazy beta iota.
rewrite model_enc_quarter // view_flatten // numel3 fc_mean_features linear_ok.
exact: normalize_rank2.
Qed.

Lemma ConvDecoder_old_forward_main tr m i4 proj main b zd k out :
  cd_img_size m == 32 ->
  cd_img_4 m = Some i4 -> cd_proj m = Some proj -> cd_main m = Some main ->
  run_seq tr proj [:: b; zd] = Some [:: b; k] ->
  k = cd_num_filters m * i4 * i4 ->
  run_seq tr main [:: b; cd_num_filters m; i4; i4] = Some out ->
  ConvDecoder_old_forward tr m [:: b; zd] = Some out.
Proof.
rewrite /ConvDecoder_old_forward => -> -> -> -> -> ek.
by rewrite (view_4d _ ek).
Qed.

Lemma ConvDecoder_old_forward_else tr m i4 fc model b zd k out :
  cd_img_size m != 32 ->
  cd_img_4 m = Some i4 -> cd_fc m = Some fc -> cd_model m = Some model ->
  run_seq tr fc [:: b; zd] = Some [:: b; k] ->
  k = cd_num_filters m * i4 * i4 ->
  run_seq tr model [:: b; cd_num_filters m; i4; i4] = Some out ->
  ConvDecoder_old_forward tr m [:: b; zd] = Some out.
Proof.
rewrite /ConvDecoder_old_forward => /negbTE -> -> -> -> -> ek.
by rewrite (view_4d _ ek).
Qed.

Lemma ConvDecoder_old_forward_32 tr z c nf B m :
  0 < B -> 0 < c -> 0 < nf -> ConvDecoder_old_init z c 32 nf = Some m ->
  ConvDecoder_old_forward tr m [:: B; z] = Some [:: B; c; 32; 32].
Proof.
move=> B0 c0 nf0 [<-]; have nf2 : 0 < nf * 2 by rewrite muln_gt0 nf0.
apply: (@ConvDecoder_old_forward_main tr _ 9 _ _ B z (nf * 9 * 9));
  [ by [] | reflexivity | reflexivity | reflexivity | | by [] | ].
- by do 2! run_layer.
- by rewrite [cd_num_filters _]/=; do 21! run_layer.
Qed.

Lemma ConvDecoder_old_forward_28 tr z c nf B m :
  0 < B -> 0 < c -> 0 < nf -> ConvDecoder_old_init z c 28 nf = Some m ->
  ConvDecoder_old_forward tr m [:: B; z] = Some [:: B; c; 28; 28].
Proof.
move=> B0 c0 nf0 [<-].
apply: (@ConvDecoder_old_forward_else tr _ 7 _ _ B z (7 * 7 * nf));
  [ by [] | reflexivity | reflexivity | reflexivity | | by rewrite /= mulnC mulnA | ].
- by do 2! run_layer.
- by rewrite [cd_num_filters _]/=; do 8! run_layer.
Qed.

(** The constructor of [ConvDecoder_old] succeeds for the image sizes 28
    and 32 only, while [ConvEncoder_old] can be built for every size. *)
Theorem ConvDecoder_old_init_defined z c img nf :
  isSome (ConvDecoder_old_init z c img nf) = (img \in [:: 28; 32]).
Proof.
rewrite !inE /ConvDecoder_old_init /ConvDecoder_old_img_4.
case: (altP (img =P 28)) => [->|_] //.
by case: (altP (img =P 32)) => [->|_].
Qed.

(** The two older networks, built with image channels and filters, fit
    together for the sizes 28 and 32: decoding the codes of a non-empty
    batch of images gives a batch of the shape of the input. *)
Theorem old_autoencoder_shape_round_trip tr z c nf B img :
  0 < B -> 0 < c -> 0 < nf -> img \in [:: 28; 32] ->
  exists2 m, ConvDecoder_old_init z c img nf = Some m &
    obind (ConvDecoder_old_forward tr m)
      (ConvEncoder_old_forward tr (ConvEncoder_old_init z c img false nf)
         [:: B; c; img; img]) =
    Some [:: B; c; img; img].
Proof.
move=> B0 c0 nf0; rewrite !inE => /orP [] /eqP ->.
- have [m init] : exists m, ConvDecoder_old_init z c 28 nf = Some m.
    by eexists; reflexivity.
  exists m => //.
  rewrite (@ConvEncoder_old_forward_quarter tr z c false nf B 7) //.
    by rewrite batch_not_single // andbF.
  exact: (ConvDecoder_old_forward_28 tr B0 c0 nf0 init).
- have [m init] : exists m, ConvDecoder_old_init z c 32 nf = Some m.
    by eexists; reflexivity.
  exists m => //; rewrite ConvEncoder_old_forward_32 //.
  exact: (ConvDecoder_old_forward_32 tr B0 c0 nf0 init).
Qed.

End OldShapes.

Lemma old_autoencoder_shape_round_trip_witness :
  [/\ (0 < 10)%N, (0 < 3)%N, (0 < 256)%N & (32 \in [:: 28; 32])%N] /\
  exists2 m, ConvDecoder_old_init 10 3 32 256 = Some m &
    obind (ConvDecoder_old_forward true m)
      (ConvEncoder_old_forward true (ConvEncoder_old_init 10 3 32 false 256)
         [:: 10; 3; 32; 32]%N) =
    Some [:: 10; 3; 32; 32]%N.
Proof.
split; first by split; reflexivity.
exact: (@old_autoencoder_shape_round_trip true 10 3 256 10 32 isT isT isT isT).
Defined.

(** ** Instances *)

Lemma find_jacobian_linear_witness :
  clean_grad (w_x world1) /\
  exists J w',
    find_jacobian enc1 dec1 world1 = Some (J, w') /\
    forall n, J n = const_mx 2.
Proof.
split; first by reflexivity.
exact: (@find_jacobian_linear rat 1 1 1 1 1 0 0 (const_mx 2) dec1 world1 isT).
Defined.

(** The latent batch of [world4] is ((36, 15), (6, 3)), three times
    ((12, 5), (2, 1)): the gradient of the sum of its entries with respect
    to the parameter is 12 + 5 + 2 + 1 = 20. *)
Lemma wvjp_world4 :
  wpending (w_enc world4) + wvjp enc4 (base_graph world4) (const_mx 1) =
  const_mx 20.
Proof.
apply/rowP => j; rewrite /wpending [wgrad _]/= add0r /wvjp.
rewrite !big_ord_recl !big_ord0 !addr0 !mxE.
rewrite !big_ord_recl !big_ord0 [g_in _]/= !mxE /=.
by apply/eqP.
Qed.

Lemma find_jacobian_parameter_gradients_witness :
  (0 < 2)%N /\
  exists J w',
    [/\ find_jacobian enc4 dec4 world4 = Some (J, w'),
        wgrad (w_enc w') =
          Some (wpending (w_enc world4) +
                wvjp enc4 (base_graph world4) (const_mx 1)) &
        wgrad (w_enc world4) = None /\ wgrad (w_enc w') = Some (const_mx 20)].
Proof.
split; first by reflexivity.
have [J [w' [run eg]]] :=
  @find_jacobian_parameter_gradients rat 2 1 2 2 2 1 0 0 0 enc4 dec4 world4 isT.
by exists J, w'; split=> //; split=> //; rewrite eg wvjp_world4.
Defined.

Lemma render_sample_succeeds_iff_witness :
  ((0 < 1 * 2 * 3)%N /\
   isSome (render_sample dec6 5 10 0 0 1%:M mod6) = true) /\
  ((0 < 1 * 1 * 1)%N /\
   isSome (render_sample dec1 1 10 0 0 1%:M (fresh_module 0 0)) = false).
Proof.
split.
- split; first by reflexivity.
  exact: (@render_sample_succeeds_iff rat 1 2 3 6 0 6 dec6 5 10 0 0 1%:M mod6 isT).
- split; first by reflexivity.
  exact: (@render_sample_succeeds_iff rat 1 1 1 1 0 0 dec1 1 10 0 0 1%:M
            (fresh_module 0 0) isT).
Defined.

Lemma render_sample_decoder_state_witness :
  [/\ displayable 1 2 3, (5 <= 5)%N & (5 <= 6)%N] /\
  exists fig dec',
    [/\ render_sample dec6 5 10 0 0 1%:M mod6 = Some (fig, dec'),
        weights dec' = weights mod6,
        num_batches_tracked dec' = 10%N &
        training mod6 = false -> dec' = mod6].
Proof.
split; first by split; reflexivity.
exact: (@render_sample_decoder_state rat 1 2 3 6 0 6 dec6 5 10 0 0 1%:M mod6
          isT isT isT).
Defined.

Lemma ConvEncoder_forward_shape_witness :
  [/\ (0 < 10)%N, (0 < 3)%N, (32 == 32)%N && (0 < 256)%N || (32 == 64)%N && (3 < 256)%N,
      (0 < 3)%N & (64 == 32)%N && (0 < 4)%N || (64 == 64)%N && (3 < 4)%N] /\
  ConvEncoder_forward true (ConvEncoder_init 10 3 32 false 256)
    [:: 10; 3; 32; 32]%N = Some [:: 10; 10]%N /\
  ConvEncoder_forward true (ConvEncoder_init 10 3 64 false 4)
    [:: 10; 3; 64; 64]%N = Some [:: 10; 10]%N.
Proof.
split; first by split; reflexivity.
split.
- exact: (@ConvEncoder_forward_shape true 10 3 false 256 10 32 isT isT isT).
- exact: (@ConvEncoder_forward_shape true 10 3 false 4 10 64 isT isT isT).
Defined.

Lemma ConvEncoder_forward_shape_other_witness :
  [/\ (0 < 10)%N, (0 < 1)%N, (0 < 64)%N, (0 < 7)%N &
      (4 * 7 != 32)%N && (4 * 7 != 64)%N /\
      ~~ (true && (10 * (7 * 7) == 1)%N)] /\
  ConvEncoder_forward true (ConvEncoder_init 10 1 (4 * 7) false 64)
    [:: 10; 1; 4 * 7; 4 * 7]%N = Some [:: 10; 10]%N.
Proof.
split; first by split; try split; reflexivity.
exact: (@ConvEncoder_forward_shape_other true 10 1 false 64 10 7
          isT isT isT isT isT isT).
Defined.

Lemma ConvEncoder_rejects_channels_witness :
  (1 != 3)%N /\
  ConvEncoder_forward true (ConvEncoder_init 10 3 32 false 256)
    [:: 10; 1; 32; 32]%N = None.
Proof.
split; first by reflexivity.
exact: (@ConvEncoder_rejects_channels true 10 3 false 256 32 10 1 32 32 isT).
Defined.

Lemma ConvDecoder_forward_shape_witness :
  [/\ (0 < 5)%N, (0 < 1)%N, (0 < 64)%N & (28 \in [:: 28; 32; 64])%N] /\
  exists2 m, ConvDecoder_init 10 1 28 64 = Some m &
             ConvDecoder_forward true m [:: 5; 10]%N = Some [:: 5; 1; 28; 28]%N.
Proof.
split; first by split; reflexivity.
exact: (@ConvDecoder_forward_shape true 10 1 64 5 28 isT isT isT isT).
Defined.

Lemma ConvDecoder_rejects_latent_witness :
  ((28 \in [:: 28; 32; 64])%N /\ (3 != 10)%N) /\
  exists2 m, ConvDecoder_init 10 1 28 64 = Some m &
             ConvDecoder_forward true m [:: 5; 3]%N = None.
Proof.
split; first by split; reflexivity.
exact: (@ConvDecoder_rejects_latent true 10 1 64 28 5 3 isT isT).
Defined.

Lemma autoencoder_shape_round_trip_witness :
  [/\ (0 < 10)%N, (0 < 3)%N, ((if 64 == 64 then 3 else 0) < 128)%N &
      (64 \in [:: 28; 32; 64])%N] /\
  exists2 m, ConvDecoder_init 10 3 64 128 = Some m &
    obind (ConvDecoder_forward true m)
      (ConvEncoder_forward true (ConvEncoder_init 10 3 64 false 128)
         [:: 10; 3; 64; 64]%N) =
    Some [:: 10; 3; 64; 64]%N.
Proof.
split; first by split; reflexivity.
exact: (@autoencoder_shape_round_trip true 10 3 128 10 64 isT isT isT isT).
Defined.

Lemma BetaVAE_forward_shape_64_witness :
  ((0 < 8)%N /\ (0 < 3)%N) /\
  BetaVAE_forward true (BetaVAE_init 10 3 64) [:: 8; 3; 64; 64]%N =
  Some ([:: 8; 3; 64; 64], [:: 8; 10], [:: 8; 10])%N.
Proof.
split; first by split; reflexivity.
exact: (@BetaVAE_forward_shape_64 true 10 3 8 isT isT).
Defined.

Lemma BetaVAE_forward_shape_other_witness :
  [/\ (0 < 8)%N, (0 < 3)%N & (32 != 64)%N] /\
  BetaVAE_forward true (BetaVAE_init 10 3 32) [:: 8; 3; 28; 28]%N =
    Some ([:: 8; 3; 28; 28], [:: 8; 10], [:: 8; 10])%N /\
  BetaVAE_forward true (BetaVAE_init 10 3 32) [:: 8; 3; 32; 32]%N =
    Some ([:: 8 * 4; 3; 28; 28], [:: 8 * 4; 10], [:: 8 * 4; 10])%N.
Proof.
split; first by split; reflexivity.
exact: (@BetaVAE_forward_shape_other true 10 3 32 8 isT isT isT).
Defined.

Lemma script_networks_fit_witness :
  dataset_config "mnist"%string = Some (1, 28, 64)%N /\
  exists2 dec, ConvDecoder_init 10 1 28 64 = Some dec &
    [/\ ConvEncoder_forward true (ConvEncoder_init 10 1 28 false 64)
          [:: num_samples; 1; 28; 28]%N = Some [:: num_samples; 10]%N,
        ConvDecoder_forward true dec [:: num_samples; 10]%N =
          Some [:: num_samples; 1; 28; 28]%N &
        ConvDecoder_forward true dec [:: 5; 10]%N = Some [:: 5; 1; 28; 28]%N].
Proof.
split; first by reflexivity.
exact: (@script_networks_fit true "mnist"%string 10 1 28 64 (erefl _)).
Defined.

(** The script on [world4], two images of 2 x 2 pixels and two latent
    dimensions, with two directions to draw. *)
Lemma script_saves_one_figure_per_sample_witness :
  [/\ displayable 1 2 2, (0 < 2 <= 1 * 2 * 2)%N, (2 <= 5)%N & (2 <= 2)%N] /\
  exists figs w',
    [/\ script enc4 dec4 (fun A => (A, 0, 1%:M)) 2 10 world4 = Some (figs, w'),
        size figs = 2%N,
        all (fun fig => (nrows fig == 5%N) && (ncols fig == 11%N)) figs,
        data (w_x w') = data (w_x world4) &
        count is_encode (w_log w') = 3%N /\
        num_batches_tracked (w_enc w') = 3%N].
Proof.
split; first by split; reflexivity.
exact: (@script_saves_one_figure_per_sample rat 2 1 2 2 2 1 0 0 0 enc4 dec4
          (fun A => (A, 0, 1%:M)) 2 10 world4 isT isT isT isT).
Defined.

(** The script succeeds on [world4]; on [world1], whose images have a
    single pixel, it fails, and so it does on [world4] with six directions
    to draw. *)
Lemma script_succeeds_iff_witness :
  [/\ ((0 < 2)%N /\ (0 < 2 <= 1 * 2 * 2)%N) /\
      isSome (script enc4 dec4 (fun A => (A, 0, 1%:M)) 2 10 world4) = true,
      ((0 < 1)%N /\ (0 < 1 <= 1 * 1 * 1)%N) /\
      isSome (script enc1 dec1 (fun A => (A, 0, 1%:M)) 1 10 world1) = false &
      ((0 < 2)%N /\ (0 < 2 <= 1 * 2 * 2)%N) /\
      isSome (script enc4 dec4 (fun A => (A, 0, 1%:M)) 6 10 world4) = false].
Proof.
split; (split; first by split; reflexivity).
- exact: (@script_succeeds_iff rat 2 1 2 2 2 1 0 0 0 enc4 dec4
            (fun A => (A, 0, 1%:M)) 2 10 world4 isT isT).
- exact: (@script_succeeds_iff rat 1 1 1 1 1 0 0 0 0 enc1 dec1
            (fun A => (A, 0, 1%:M)) 1 10 world1 isT isT).
- exact: (@script_succeeds_iff rat 2 1 2 2 2 1 0 0 0 enc4 dec4
            (fun A => (A, 0, 1%:M)) 6 10 world4 isT isT).
Defined.
